(** * Lyra: a shallow embedding of the search engine class [Lyra]

    The development follows the class [Lyra] method by method.  JavaScript
    values are a small inductive type, [Map] and [Set] are insertion-ordered
    association lists and lists (their iteration order is observable in the
    hits of a search), and the methods that mutate the engine run in a state
    monad in which a thrown exception keeps the mutations made before it. *)

From Stdlib Require Import ZArith NArith List String Ascii Bool Lia.
From Stdlib Require Import DecimalString DecimalN.
Import ListNotations.
Local Open Scope string_scope.
Local Open Scope Z_scope.

(** ** JavaScript numbers

    A [number] is NaN, an infinity, or the finite decimal [m / 10^e].  Finite
    decimals stand for the doubles whose shortest decimal representation they
    are; negative zero is identified with zero. *)

Inductive number : Type :=
| NaN
| Infinity (negative : bool)
| Finite (m : Z) (e : nat).

Definition num_compare (a b : number) : option comparison :=
  match a, b with
  | NaN, _ | _, NaN => None
  | Infinity n1, Infinity n2 =>
      Some (if n1 then (if n2 then Eq else Lt) else (if n2 then Gt else Eq))
  | Infinity n, Finite _ _ => Some (if n then Lt else Gt)
  | Finite _ _, Infinity n => Some (if n then Gt else Lt)
  | Finite m1 e1, Finite m2 e2 =>
      Some (Z.compare (m1 * 10 ^ Z.of_nat e2) (m2 * 10 ^ Z.of_nat e1))
  end.

(** [<], [<=], [===], [>], [>=] on numbers: every comparison with NaN is false. *)
Definition num_lt (a b : number) : bool :=
  match num_compare a b with Some Lt => true | _ => false end.
Definition num_le (a b : number) : bool :=
  match num_compare a b with Some Lt | Some Eq => true | _ => false end.
Definition num_eq (a b : number) : bool :=
  match num_compare a b with Some Eq => true | _ => false end.
Definition num_gt (a b : number) : bool := num_lt b a.
Definition num_ge (a b : number) : bool := num_le b a.

(** SameValueZero, the key equality of [Map]: like [===] but NaN is NaN. *)
Definition same_value_zero (a b : number) : bool :=
  match a, b with
  | NaN, NaN => true
  | _, _ => num_eq a b
  end.

(** *** Number to string (ECMAScript [Number::toString], radix 10) *)

Definition digits_of_N (n : N) : string := NilZero.string_of_uint (N.to_uint n).

Fixpoint string_rev_acc (s acc : string) : string :=
  match s with
  | EmptyString => acc
  | String c r => string_rev_acc r (String c acc)
  end.
Definition string_rev (s : string) : string := string_rev_acc s "".

Fixpoint drop_leading_zeros (s : string) : string :=
  match s with
  | String "0"%char r => drop_leading_zeros r
  | _ => s
  end.

Definition strip_trailing_zeros (s : string) : string :=
  string_rev (drop_leading_zeros (string_rev s)).

Fixpoint zeros (n : nat) : string :=
  match n with
  | O => ""
  | S k => String "0"%char (zeros k)
  end.

Definition string_take (n : nat) (s : string) : string := substring 0 n s.
Definition string_drop (n : nat) (s : string) : string :=
  substring n (String.length s - n) s.

(** [s] are the significant digits, [k] their count and [n] the decimal
    exponent with [value = 0.s * 10^n], as in the standard's algorithm. *)
Definition finite_to_string (m : Z) (e : nat) : string :=
  if m =? 0 then "0" else
  let sign := if m <? 0 then "-" else "" in
  let all := digits_of_N (Z.to_N (Z.abs m)) in
  let s := strip_trailing_zeros all in
  let k := String.length s in
  let n := Z.of_nat (String.length all) - Z.of_nat e in
  let body :=
    if (Z.of_nat k <=? n) && (n <=? 21) then
      s ++ zeros (Z.to_nat (n - Z.of_nat k))
    else if (0 <? n) && (n <=? 21) then
      string_take (Z.to_nat n) s ++ "." ++ string_drop (Z.to_nat n) s
    else if (-6 <? n) && (n <=? 0) then
      "0." ++ zeros (Z.to_nat (- n)) ++ s
    else
      let x := n - 1 in
      let exp := (if x <? 0 then "-" else "+") ++ digits_of_N (Z.to_N (Z.abs x)) in
      if (k =? 1)%nat then s ++ "e" ++ exp
      else string_take 1 s ++ "." ++ string_drop 1 s ++ "e" ++ exp
  in sign ++ body.

Definition number_to_string (x : number) : string :=
  match x with
  | NaN => "NaN"
  | Infinity false => "Infinity"
  | Infinity true => "-Infinity"
  | Finite m e => finite_to_string m e
  end.

(** *** String to number ([Number(s)])

    Decimal literals with optional sign, fraction and exponent, [Infinity],
    and the empty string; anything else is NaN.  Hexadecimal, octal and
    binary literals are not modelled (they read as NaN here). *)

Definition is_digit (c : ascii) : bool :=
  let n := nat_of_ascii c in ((48 <=? n) && (n <=? 57))%nat.

Definition is_space (c : ascii) : bool :=
  let n := nat_of_ascii c in
  ((n =? 32) || (n =? 9) || (n =? 10) || (n =? 11) || (n =? 12) || (n =? 13))%nat.

Fixpoint span_digits (s : string) : string * string :=
  match s with
  | String c r =>
      if is_digit c then let (d, rest) := span_digits r in (String c d, rest)
      else ("", s)
  | EmptyString => ("", "")
  end.

Fixpoint drop_spaces (s : string) : string :=
  match s with
  | String c r => if is_space c then drop_spaces r else s
  | EmptyString => ""
  end.

Definition trim (s : string) : string :=
  string_rev (drop_spaces (string_rev (drop_spaces s))).

Definition N_of_digits (s : string) : N :=
  match NilZero.uint_of_string s with
  | Some u => N.of_uint u
  | None => 0%N
  end.

Definition split_sign (s : string) : bool * string :=
  match s with
  | String "-"%char r => (true, r)
  | String "+"%char r => (false, r)
  | _ => (false, s)
  end.

(** Optional exponent part: [Some x] when [s] is empty ([x = 0]) or is
    [e] or [E], an optional sign and at least one digit. *)
Definition parse_exponent (s : string) : option Z :=
  match s with
  | EmptyString => Some 0
  | String c r =>
      if (Ascii.eqb c "e" || Ascii.eqb c "E")%bool then
        let (neg, r') := split_sign r in
        let (d, rest) := span_digits r' in
        match d, rest with
        | String _ _, EmptyString =>
            let x := Z.of_N (N_of_digits d) in Some (if neg then - x else x)
        | _, _ => None
        end
      else None
  end.

Definition parse_unsigned_decimal (s : string) : option (Z * nat) :=
  let (ip, r1) := span_digits s in
  let (fp, r2) :=
    match r1 with
    | String "."%char r => span_digits r
    | _ => ("", r1)
    end in
  match ip ++ fp with
  | EmptyString => None
  | String _ _ as ds =>
      match parse_exponent r2 with
      | None => None
      | Some x =>
          let m := Z.of_N (N_of_digits ds) in
          let sh := x - Z.of_nat (String.length fp) in
          Some (if 0 <=? sh then (m * 10 ^ sh, O) else (m, Z.to_nat (- sh)))
      end
  end.

Definition Number (s : string) : number :=
  let t := trim s in
  if String.eqb t "" then Finite 0 0 else
  let (neg, body) := split_sign t in
  if String.eqb body "Infinity" then Infinity neg else
  match parse_unsigned_decimal body with
  | Some (m, e) => Finite (if neg then - m else m) e
  | None => NaN
  end.

(** *** [split], [join], [slice(0, -2)] and [at] on the dotted index names *)

Fixpoint split_acc (sep : ascii) (s cur : string) : list string :=
  match s with
  | EmptyString => [string_rev cur]
  | String c r =>
      if Ascii.eqb c sep then string_rev cur :: split_acc sep r ""
      else split_acc sep r (String c cur)
  end.
Definition string_split (sep : ascii) (s : string) : list string :=
  split_acc sep s "".

Fixpoint join (sep : string) (l : list string) : string :=
  match l with
  | [] => ""
  | [x] => x
  | x :: r => x ++ sep ++ join sep r
  end.

(** [l.slice(0, -k)]: all but the last [k] elements. *)
Definition slice_drop_last {A} (k : nat) (l : list A) : list A :=
  firstn (List.length l - k) l.

(** [l.at(-k)] for [k >= 1]: [None] stands for [undefined]. *)
Definition at_from_end {A} (k : nat) (l : list A) : option A :=
  if (k <=? List.length l)%nat then nth_error l (List.length l - k) else None.

(** [s] has no dot in it. *)
Fixpoint no_dot (s : string) : bool :=
  match s with
  | EmptyString => true
  | String c r => negb (Ascii.eqb c ".") && no_dot r
  end.

(** ** JavaScript values

    Schemas, documents and [where] clauses are all plain objects.  An object
    is the list of its own enumerable properties in insertion order, with
    distinct keys; [Object.keys] and [for ... in] enumerate it in that order
    (integer-like keys, which JavaScript enumerates first, the prototype
    chain, and the index keys of string primitives are outside the model). *)

#[warnings="-register-all"]
Inductive value : Type :=
| VUndefined
| VNull
| VBool (b : bool)
| VNum (n : number)
| VStr (s : string)
| VObj (fields : list (string * value)).

Definition typeof (v : value) : string :=
  match v with
  | VUndefined => "undefined"
  | VNull => "object"
  | VBool _ => "boolean"
  | VNum _ => "number"
  | VStr _ => "string"
  | VObj _ => "object"
  end.

(** [!v] is [negb (truthy v)]. *)
Definition truthy (v : value) : bool :=
  match v with
  | VUndefined | VNull => false
  | VBool b => b
  | VNum NaN => false
  | VNum (Finite m _) => negb (m =? 0)
  | VNum (Infinity _) => true
  | VStr s => negb (String.eqb s "")
  | VObj _ => true
  end.

Fixpoint assoc {A} (k : string) (l : list (string * A)) : option A :=
  match l with
  | [] => None
  | (k', v) :: r => if String.eqb k k' then Some v else assoc k r
  end.

(** [o[k]] on a value that is not null or undefined. *)
Definition get (o : value) (k : string) : value :=
  match o with
  | VObj fields => match assoc k fields with Some v => v | None => VUndefined end
  | _ => VUndefined
  end.

(** [k in o] for an object [o]. *)
Definition has_key (o : value) (k : string) : bool :=
  match o with
  | VObj fields => match assoc k fields with Some _ => true | None => false end
  | _ => false
  end.

(** [v === "s"] for a string literal. *)
Definition is_str (v : value) (s : string) : bool :=
  match v with VStr t => String.eqb t s | _ => false end.

Definition bool_to_string (b : bool) : string := if b then "true" else "false".

(** ** Errors

    The constructors of [ERRORS], plus the [TypeError] the runtime raises on
    a property access or [Object.keys] of null or undefined, the [RangeError]
    it raises on an array length that is no 32-bit index, and the string
    thrown by [delete] when a removal from a trie reports a failure. *)

Inductive error : Type :=
| LANGUAGE_NOT_SUPPORTED
| INVALID_SCHEMA_TYPE
| INVALID_DOC_SCHEMA
| INVALID_PROPERTY
| INVALID_QUERY_PARAMS
| DOC_ID_DOES_NOT_EXISTS
| TypeError
| RangeError
| UnableToRemoveDocument.

Inductive result (A : Type) : Type :=
| Ok (a : A)
| Err (e : error).
Arguments Ok {A} a.
Arguments Err {A} e.

Definition rbind {A B} (r : result A) (f : A -> result B) : result B :=
  match r with
  | Ok a => f a
  | Err e => Err e
  end.

(** [ToLength(x)] of ECMAScript: the integer part of [x] (towards zero),
    clamped to [0 .. 2^53 - 1]; NaN becomes 0. *)
Definition ToLength (x : number) : Z :=
  match x with
  | NaN => 0
  | Infinity true => 0
  | Infinity false => 2 ^ 53 - 1
  | Finite m e => Z.min (Z.max 0 (Z.quot m (10 ^ Z.of_nat e))) (2 ^ 53 - 1)
  end.

(** [Array.from({ length })]: an array of [ToLength(length)] empty slots; a
    length above [2^32 - 1] is a [RangeError]. *)
Definition Array_from_length {A : Type} (length : number) : result (list (option A)) :=
  let len := ToLength length in
  if 2 ^ 32 - 1 <? len then Err RangeError
  else Ok (repeat None (Z.to_nat len)).

(** [Object.keys(v)]: throws on null and undefined; the keys of a string
    are its indices, a boolean and a number have none. *)
Definition Object_keys (v : value) : result (list string) :=
  match v with
  | VUndefined | VNull => Err TypeError
  | VObj fields => Ok (map fst fields)
  | VStr s => Ok (map (fun k => digits_of_N (N.of_nat k)) (seq 0 (String.length s)))
  | _ => Ok []
  end.

(** ** [Set<string>] and [Map<K, V>] in insertion order *)

Definition set_has (x : string) (s : list string) : bool :=
  existsb (String.eqb x) s.

Definition set_add (x : string) (s : list string) : list string :=
  if set_has x s then s else (s ++ [x])%list.

Definition set_delete (x : string) (s : list string) : list string :=
  filter (fun y => negb (String.eqb x y)) s.

Section MapOps.
Context {K V : Type} (keq : K -> K -> bool).

Fixpoint map_get (k : K) (m : list (K * V)) : option V :=
  match m with
  | [] => None
  | (k', v) :: r => if keq k k' then Some v else map_get k r
  end.

Definition map_has (k : K) (m : list (K * V)) : bool :=
  match map_get k m with Some _ => true | None => false end.

(** [m.set(k, v)]: an existing key keeps its position. *)
Fixpoint map_set (k : K) (v : V) (m : list (K * V)) : list (K * V) :=
  match m with
  | [] => [(k, v)]
  | (k', v') :: r =>
      if keq k k' then (k', v) :: r else (k', v') :: map_set k v r
  end.

Fixpoint map_delete (k : K) (m : list (K * V)) : list (K * V) :=
  match m with
  | [] => []
  | (k', v') :: r =>
      if keq k k' then r else (k', v') :: map_delete k r
  end.
End MapOps.

(** Modelled from the spec: [setIntersection] of [./utils], whose source is
    missing.  A null operand is the "no constraint" sentinel; the
    result is null only when both operands are. *)
Definition setIntersection (a b : option (list string)) : option (list string) :=
  match a, b with
  | None, None => None
  | None, Some y => Some y
  | Some x, None => Some x
  | Some x, Some y => Some (filter (fun i => set_has i y) x)
  end.

(** Modelled from the spec: [setSubtraction] of [./utils], whose source is
    missing.  It removes from its first argument, in place, the ids
    already emitted. *)
Definition setSubtraction (a b : list string) : list string :=
  filter (fun i => negb (set_has i b)) a.

(** ** The collaborators of the class

    The tokenizer, the list of supported languages and the prefix tree are
    imported by the class from other modules ([./tokenizer], [./stemmer],
    [./prefix-tree/trie]); the engine is parametrised by them.  [tokenize v None] is a call without a language
    argument.  [Trie_removeDocByWord] returns the value tested by [delete]
    together with the mutated trie; [Trie_find] returns the result object as
    its list of [(word, ids)] properties. *)

Class Env : Type := {
  Trie : Type;
  Trie_new : Trie;
  Trie_insert : Trie -> string -> string -> Trie;
  Trie_removeDocByWord : Trie -> string -> string -> bool * Trie;
  Trie_find : Trie -> string -> bool -> value -> list (string * list string);
  SUPPORTED_LANGUAGES : list string;
  tokenize : value -> option string -> result (list string)
}.

Definition includes (l : list string) (x : string) : bool := existsb (String.eqb x) l.

Definition allowedNumericComparison : list string := [">="; ">"; "="; "<"; "<="].



Definition to_lower_char (c : ascii) : ascii :=
  let n := nat_of_ascii c in
  if ((65 <=? n) && (n <=? 90))%nat then ascii_of_nat (n + 32) else c.

Fixpoint toLowerCase (s : string) : string :=
  match s with
  | EmptyString => EmptyString
  | String c r => String (to_lower_char c) (toLowerCase r)
  end.

(** [results[i] = x] on an array with holes: writing past the end extends
    the array. *)
Fixpoint array_set {A} (l : list (option A)) (n : nat) (x : A) : list (option A) :=
  match n, l with
  | O, [] => [Some x]
  | O, _ :: r => Some x :: r
  | S k, [] => None :: array_set [] k x
  | S k, y :: r => y :: array_set r k x
  end.

(** ** The leaves of a schema

    [leaf_paths ty schema prefix] lists the flat paths of the leaves of
    [schema] declared with the type name [ty]; a schema is valid when every
    leaf is one of the three known type names and every other value is a
    nested object. *)

Fixpoint leaf_paths (ty : string) (schema : value) (prefix : string)
         {struct schema} : list string :=
  match schema with
  | VObj fields =>
      (fix go (fs : list (string * value)) : list string :=
         match fs with
         | [] => []
         | (prop, propValue) :: rest =>
             let here :=
               match propValue with
               | VObj _ => leaf_paths ty propValue ((prefix ++ prop) ++ ".")
               | VStr t => if String.eqb t ty then [prefix ++ prop] else []
               | _ => []
               end in
             (here ++ go rest)%list
         end) fields
  | _ => []
  end.

(** ** The number leaves of a document

    [number_leaves doc prefix] lists the numbers of [doc] at any depth, each
    with the flat path of its field, as the insertion walk names it. *)

Fixpoint number_leaves (doc : value) (prefix : string) {struct doc}
  : list (string * number) :=
  match doc with
  | VObj fields =>
      (fix go (fs : list (string * value)) : list (string * number) :=
         match fs with
         | [] => []
         | (key, v) :: rest =>
             let here :=
               match v with
               | VObj _ => number_leaves v ((prefix ++ key) ++ ".")
               | VNum x => [(prefix ++ key, x)]
               | _ => []
               end in
             (here ++ go rest)%list
         end) fields
  | _ => []
  end.

(** Two documents that differ at most in the values of their numbers. *)
Fixpoint same_but_numbers (a b : value) {struct a} : bool :=
  match a, b with
  | VUndefined, VUndefined => true
  | VNull, VNull => true
  | VBool x, VBool y => Bool.eqb x y
  | VNum _, VNum _ => true
  | VStr x, VStr y => String.eqb x y
  | VObj fa, VObj fb =>
      (fix go (fa fb : list (string * value)) : bool :=
         match fa, fb with
         | [], [] => true
         | (ka, va) :: ra, (kb, vb) :: rb =>
             String.eqb ka kb && same_but_numbers va vb && go ra rb
         | _, _ => false
         end) fa fb
  | _, _ => false
  end.



(** The two posting sets of a boolean leaf. *)
Definition boolean_keys (paths : list string) : list string :=
  flat_map (fun q => [q ++ "_true"; q ++ "_false"]) paths.

(** [ks'] has the keys of [ks] and the keys [new], and no other. *)
Definition keys_extend (ks ks' new : list string) : Prop :=
  forall p, In p ks' <-> In p ks \/ In p new.

(** ** The engine *)

Section Engine.
Context {E : Env}.

Record Lyra : Type := mkLyra {
  defaultLanguage : string;
  schema : value;
  docs : list (string * value);
  index : list (string * Trie);
  numericIndex : list (string * list (number * list string));
  booleanIndex : list (string * list string)
}.

Definition set_docs (f : _ -> _) (st : Lyra) : Lyra :=
  mkLyra (defaultLanguage st) (schema st) (f (docs st)) (index st)
         (numericIndex st) (booleanIndex st).
Definition set_index (f : _ -> _) (st : Lyra) : Lyra :=
  mkLyra (defaultLanguage st) (schema st) (docs st) (f (index st))
         (numericIndex st) (booleanIndex st).
Definition set_numericIndex (f : _ -> _) (st : Lyra) : Lyra :=
  mkLyra (defaultLanguage st) (schema st) (docs st) (index st)
         (f (numericIndex st)) (booleanIndex st).
Definition set_booleanIndex (f : _ -> _) (st : Lyra) : Lyra :=
  mkLyra (defaultLanguage st) (schema st) (docs st) (index st)
         (numericIndex st) (f (booleanIndex st)).

(** *** The monad of the mutating methods

    A computation maps the engine to an outcome and the engine as the
    computation left it: an exception does not undo earlier mutations. *)

Definition M (A : Type) : Type := Lyra -> result A * Lyra.

Definition ret {A} (a : A) : M A := fun st => (Ok a, st).
Definition throw {A} (e : error) : M A := fun st => (Err e, st).
Definition bind {A B} (c : M A) (f : A -> M B) : M B :=
  fun st => match c st with
            | (Ok a, st') => f a st'
            | (Err e, st') => (Err e, st')
            end.
Definition this : M Lyra := fun st => (Ok st, st).
Definition modify (f : Lyra -> Lyra) : M unit := fun st => (Ok tt, f st).
Definition lift {A} (r : result A) : M A := fun st => (r, st).

Notation "x <- c ;; k" := (bind c (fun x => k))
  (at level 61, c at next level, right associativity).
Notation "c ;;; k" := (bind c (fun _ => k))
  (at level 61, right associativity).

(** [for (const x of l) body(x)] with no [break]. *)
Fixpoint for_of {A} (l : list A) (body : A -> M unit) : M unit :=
  match l with
  | [] => ret tt
  | x :: r => body x ;;; for_of r body
  end.

(** *** [buildIndex] *)

(** [typeof prop] for a key produced by [Object.keys]. *)
Definition typeof_key (prop : string) : string := "string".

Fixpoint buildIndex (schema : value) (prefix : string) {struct schema} : M unit :=
  match schema with
  | VUndefined | VNull => throw TypeError
  | VObj fields =>
      (fix loop (fs : list (string * value)) : M unit :=
         match fs with
         | [] => ret tt
         | (prop, propValue) :: rest =>
             let propType := typeof_key prop in
             let isNested := String.eqb (typeof propValue) "object" in
             if negb (String.eqb propType "string") then throw INVALID_SCHEMA_TYPE
             else
               let propName := prefix ++ prop in
               (if isNested then buildIndex propValue (propName ++ ".")
                else if is_str propValue "string" then
                  modify (set_index (map_set String.eqb propName Trie_new))
                else if is_str propValue "boolean" then
                  modify (set_booleanIndex (map_set String.eqb (propName ++ "_true") [])) ;;;
                  modify (set_booleanIndex (map_set String.eqb (propName ++ "_false") []))
                else if is_str propValue "number" then
                  modify (set_numericIndex (map_set String.eqb propName []))
                else ret tt) ;;;
               loop rest
         end) fields
  | _ => ret tt
  end.

(** One turn of the loop of [buildIndex], for the property [prop]; the
    equation [buildIndex_cons] below relates it to [buildIndex]. *)
Definition buildIndex_property (prefix prop : string) (propValue : value) : M unit :=
  let propName := prefix ++ prop in
  if String.eqb (typeof propValue) "object" then buildIndex propValue (propName ++ ".")
  else if is_str propValue "string" then
    modify (set_index (map_set String.eqb propName Trie_new))
  else if is_str propValue "boolean" then
    modify (set_booleanIndex (map_set String.eqb (propName ++ "_true") [])) ;;;
    modify (set_booleanIndex (map_set String.eqb (propName ++ "_false") []))
  else if is_str propValue "number" then
    modify (set_numericIndex (map_set String.eqb propName []))
  else ret tt.

(** The constructor; [None] is a missing [defaultLanguage]. *)
Definition new_Lyra (properties_schema : value)
           (properties_defaultLanguage : option string) : result Lyra :=
  let defaultLanguage :=
    match properties_defaultLanguage with
    | Some l => toLowerCase l
    | None => "english"
    end in
  if negb (includes SUPPORTED_LANGUAGES defaultLanguage)
  then Err LANGUAGE_NOT_SUPPORTED
  else
    match buildIndex properties_schema ""
            (mkLyra defaultLanguage properties_schema [] [] [] []) with
    | (Ok _, st) => Ok st
    | (Err e, _) => Err e
    end.

(** *** [getIndices] *)

Inductive Properties : Type :=
| PropsUndefined
| PropsString (s : string)
| PropsArray (l : list string).

Fixpoint check_known (knownIndices indices : list string) : result unit :=
  match indices with
  | [] => Ok tt
  | index :: rest =>
      if negb (includes knownIndices index) then Err INVALID_PROPERTY
      else check_known knownIndices rest
  end.

Definition getIndices (st : Lyra) (indices : Properties) : result (list string) :=
  let knownIndices := map fst (index st) in
  match indices with
  | PropsUndefined => Ok knownIndices
  | PropsString s =>
      if String.eqb s "" then Ok knownIndices
      else if String.eqb s "*" then Ok knownIndices
      else Err INVALID_PROPERTY
  | PropsArray l => rbind (check_known knownIndices l) (fun _ => Ok l)
  end.

(** *** [getNonSearchableIndices] *)

Definition handleBoolean (propValue : value) (propName : string) : result string :=
  match propValue with
  | VBool b => Ok (propName ++ "_" ++ bool_to_string b)
  | _ => Err INVALID_QUERY_PARAMS
  end.

Definition handleNumeric (propValue : value) (propName : string) : result string :=
  rbind (Object_keys propValue) (fun numericKeys =>
  if (1 <? List.length numericKeys)%nat then Err INVALID_QUERY_PARAMS
  else
    match numericKeys with
    | [] => Err INVALID_QUERY_PARAMS
    | key :: _ =>
        if negb (includes allowedNumericComparison key) then Err INVALID_QUERY_PARAMS
        else
          match get propValue key with
          | VNum n => Ok (propName ++ "." ++ key ++ "." ++ number_to_string n)
          | _ => Err INVALID_QUERY_PARAMS
          end
    end).

(** [schema[key]]: a [TypeError] when [schema] is null or undefined. *)
Definition get_checked (o : value) (k : string) : result value :=
  match o with
  | VUndefined | VNull => Err TypeError
  | _ => Ok (get o k)
  end.

(** The two arrays a call pushes to, [boolIndices] and [numericIndices];
    [push_all a b] is [a] after the elements of [b] have been pushed. *)
Definition push_all (a b : list string * list string) : list string * list string :=
  ((fst a ++ fst b)%list, (snd a ++ snd b)%list).

Fixpoint getNonSearchableIndices (where_ schema : value) (prefix : string)
         {struct where_} : result (list string * list string) :=
  if negb (truthy where_) then Ok ([], [])
  else
    match where_ with
    | VObj fields =>
        (fix loop (fs : list (string * value)) : result (list string * list string) :=
           match fs with
           | [] => Ok ([], [])
           | (key, propValue) :: rest =>
               let propName := prefix ++ key in
               rbind (get_checked schema key) (fun sk =>
               rbind
                 (if is_str sk "boolean" then
                    rbind (handleBoolean propValue propName) (fun b => Ok ([b], []))
                  else if is_str sk "number" then
                    rbind (handleNumeric propValue propName) (fun n => Ok ([], [n]))
                  else if String.eqb (typeof sk) "object" then
                    getNonSearchableIndices propValue sk (propName ++ ".")
                  else Ok ([], []))
                 (fun pushed =>
                    rbind (loop rest) (fun later => Ok (push_all pushed later))))
           end) fields
    | _ => Ok ([], [])
    end.

(** One turn of the loop of [getNonSearchableIndices], for the key [key] of
    the where clause: what it pushes, or the exception it raises.  The
    equation [getNonSearchableIndices_cons] relates it to the method. *)
Definition where_property (schema : value) (prefix key : string) (propValue : value)
  : result (list string * list string) :=
  let propName := prefix ++ key in
  rbind (get_checked schema key) (fun sk =>
  if is_str sk "boolean" then
    rbind (handleBoolean propValue propName) (fun b => Ok ([b], []))
  else if is_str sk "number" then
    rbind (handleNumeric propValue propName) (fun n => Ok ([], [n]))
  else if String.eqb (typeof sk) "object" then
    getNonSearchableIndices propValue sk (propName ++ ".")
  else Ok ([], [])).

(** *** [delete] *)

(** The keys a [for ... in] loop enumerates. *)
Definition for_in_keys (v : value) : list string :=
  match v with
  | VObj fields => map fst fields
  | _ => []
  end.

(** One [idx.removeDocByWord(token, docID)] on the trie stored under [key]
    ([idx] is that very object, so the removal is visible in the index),
    followed by the [throw] when the call returns a truthy value.  A
    missing trie makes the method call a [TypeError]. *)
Definition remove_token (key docID token : string) : M unit :=
  st <- this ;;
  match map_get String.eqb key (index st) with
  | None => throw TypeError
  | Some idx =>
      let (failed, idx') := Trie_removeDocByWord idx token docID in
      modify (set_index (map_set String.eqb key idx')) ;;;
      if failed then throw UnableToRemoveDocument else ret tt
  end.

Definition delete (docID : string) : M bool :=
  st <- this ;;
  if negb (map_has String.eqb docID (docs st)) then throw DOC_ID_DOES_NOT_EXISTS
  else
    let document :=
      match map_get String.eqb docID (docs st) with
      | Some d => d
      | None => VUndefined
      end in
    for_of (for_in_keys document) (fun key =>
      tokens <- lift (tokenize (get document key) None) ;;
      for_of tokens (remove_token key docID)) ;;;
    modify (set_docs (map_delete String.eqb docID)) ;;;
    ret true.

(** *** [getDocumentIDsFromSearch] *)

Definition add_all (ids : list string) (s : list string) : list string :=
  fold_left (fun acc id => set_add id acc) ids s.

Definition getDocumentIDsFromSearch (st : Lyra) (index_ term : string)
           (exact : bool) (tolerance : value) : list string :=
  let searchResult :=
    match map_get String.eqb index_ (index st) with
    | Some idx => Trie_find idx term exact tolerance
    | None => []
    end in
  fold_left (fun ids kv => add_all (snd kv) ids) searchResult [].

(** *** [checkInsertDocSchema] *)

Fixpoint recursiveCheck (newDoc schema : value) {struct newDoc} : bool :=
  match newDoc with
  | VObj fields =>
      (fix loop (fs : list (string * value)) : bool :=
         match fs with
         | [] => true
         | (key, v) :: rest =>
             if negb (has_key schema key) then false
             else
               let propType := typeof v in
               if String.eqb propType "object" then
                 let _ := recursiveCheck v schema in
                 loop rest
               else if negb (is_str (get schema key) (typeof v)) then false
               else loop rest
         end) fields
  | _ => true
  end.

Definition checkInsertDocSchema (st : Lyra) (doc : value) : bool :=
  recursiveCheck doc (schema st).

(** *** [_insert] *)

Definition numeric_add (numericKey : number) (id : string)
           (numericMap : list (number * list string)) : list (number * list string) :=
  match map_get same_value_zero numericKey numericMap with
  | Some s => map_set same_value_zero numericKey (set_add id s) numericMap
  | None => map_set same_value_zero numericKey [id] numericMap
  end.

(** [m.get(k)?.update()] on a map of mutable objects. *)
Definition map_update {V} (k : string) (f : V -> V) (m : list (string * V))
  : list (string * V) :=
  match map_get String.eqb k m with
  | Some v => map_set String.eqb k (f v) m
  | None => m
  end.

Fixpoint recursiveTrieInsertion (id language : string) (doc : value)
         (prefix : string) {struct doc} : M unit :=
  match doc with
  | VUndefined | VNull => throw TypeError
  | VObj fields =>
      (fix loop (fs : list (string * value)) : M unit :=
         match fs with
         | [] => ret tt
         | (key, v) :: rest =>
             let propName := prefix ++ key in
             match v with
             | VNull | VObj _ =>
                 recursiveTrieInsertion id language v (propName ++ ".")
             | VStr _ =>
                 tokens <- lift (tokenize v (Some language)) ;;
                 for_of tokens (fun token =>
                   modify (set_index
                     (map_update propName (fun t => Trie_insert t token id))))
             | VBool b =>
                 modify (set_booleanIndex
                   (map_update (propName ++ "_" ++ bool_to_string b) (set_add id)))
             | VNum numericKey =>
                 modify (set_numericIndex
                   (map_update propName (numeric_add numericKey id)))
             | VUndefined => ret tt
             end ;;;
             loop rest
         end) fields
  | _ => ret tt
  end.

Definition _insert (doc : value) (id language : string) : M unit :=
  modify (set_docs (map_set String.eqb id doc)) ;;;
  recursiveTrieInsertion id language doc "".

(** *** [insert]

    [nanoid] is the identifier the call [nanoid()] returns.  The queue has
    one worker, [_insert], and [insert] awaits the promise of [push], which
    settles when the worker has run the item; in a sequential run the queue
    is idle at each [push], so pushing runs [_insert] on the item. *)

Definition queue_push (id : string) (doc : value) (language : string) : M unit :=
  _insert doc id language.

Definition insert (nanoid : string) (doc : value) (language : option string)
  : M string :=
  st <- this ;;
  let language := match language with Some l => l | None => defaultLanguage st end in
  let id := nanoid in
  if negb (includes SUPPORTED_LANGUAGES language) then throw LANGUAGE_NOT_SUPPORTED
  else if negb (checkInsertDocSchema st doc) then throw INVALID_DOC_SCHEMA
  else queue_push id doc language ;;; ret id.

(** *** [createPredicateForNumericComparison] and [getDocumentIDsFromWhere] *)

Definition createPredicateForNumericComparison (operator : option string)
           (valueSearched : number) : number -> bool :=
  match operator with
  | Some op =>
      if String.eqb op "<" then fun value => num_lt value valueSearched
      else if String.eqb op "<=" then fun value => num_le value valueSearched
      else if String.eqb op "=" then fun value => num_eq value valueSearched
      else if String.eqb op ">" then fun value => num_gt value valueSearched
      else if String.eqb op ">=" then fun value => num_ge value valueSearched
      else fun _ => true
  | None => fun _ => true
  end.

Definition collect_boolean (st : Lyra) (booleanIds : list string) (boolIndex : string)
  : list string :=
  match map_get String.eqb boolIndex (booleanIndex st) with
  | None => booleanIds
  | Some ids => add_all ids booleanIds
  end.

Definition collect_numeric (st : Lyra) (numericIds : list string)
           (virtualNumericIndex : string) : list string :=
  let rawIndex := string_split "." virtualNumericIndex in
  let numericIndex_ := join "." (slice_drop_last 2 rawIndex) in
  let operator := at_from_end 2 rawIndex in
  let valueSearched :=
    match at_from_end 1 rawIndex with
    | Some s => Number s
    | None => NaN
    end in
  match map_get String.eqb numericIndex_ (numericIndex st) with
  | None => numericIds
  | Some current =>
      let predicate := createPredicateForNumericComparison operator valueSearched in
      let keys := filter predicate (map fst current) in
      fold_left (fun acc range =>
                   match map_get same_value_zero range current with
                   | Some ids => add_all ids acc
                   | None => acc
                   end) keys numericIds
  end.

Definition getDocumentIDsFromWhere (st : Lyra) (boolIndices numericIndices : list string)
  : option (list string) :=
  let booleanIds := fold_left (collect_boolean st) boolIndices [] in
  let numericIds := fold_left (collect_numeric st) numericIndices [] in
  let needNumberIntersect := (0 <? List.length numericIndices)%nat in
  let needBooleanIntersect := (0 <? List.length boolIndices)%nat in
  setIntersection (if needBooleanIntersect then Some booleanIds else None)
                  (if needNumberIntersect then Some numericIds else None).

(** *** [search]

    [limit] and [offset] are JavaScript numbers, of any value; the counters
    [i] and [j] start at 0 and are only incremented, so they are kept as
    integers and compared with [limit] and [offset] as numbers.  A hit
    [{ id, ...fullDoc }] is kept as the identifier and the stored document
    it is spread from.  The array [results] starts as
    [Array.from({ length: limit })], every slot empty ([None]); a write
    [results[i] = ...] past its end extends it.  The [elapsed] field, a
    reading of the clock, is left out. *)

Record SearchParams : Type := mkSearchParams {
  term : string;
  properties : Properties;
  limit : option number;
  offset : option number;
  exact : option bool;
  tolerance : value;
  where_ : value
}.

Record RetrievedDoc : Type := mkRetrievedDoc {
  id : string;
  fullDoc : option value
}.

Record SearchResult : Type := mkSearchResult {
  count : Z;
  hits : list (option RetrievedDoc)
}.

(** The variables the loops of [search] update. *)
Record Cursor : Type := mkCursor {
  documentAdded : list string;
  results : list (option RetrievedDoc);
  totalResults : Z;
  i : Z;
  j : Z
}.

(** [for (const id of documentIDs)]: skip while [j < offset], stop at
    [i >= limit], otherwise emit the document. *)
Fixpoint emit (st : Lyra) (limit offset : number) (documentIDs : list string)
         (c : Cursor) : Cursor :=
  match documentIDs with
  | [] => c
  | id :: rest =>
      if num_lt (Finite (j c) 0) offset then
        emit st limit offset rest
             (mkCursor (documentAdded c) (results c) (totalResults c) (i c) (j c + 1))
      else if num_ge (Finite (i c) 0) limit then c
      else
        let fullDoc := map_get String.eqb id (docs st) in
        emit st limit offset rest
             (mkCursor (set_add id (documentAdded c))
                       (array_set (results c) (Z.to_nat (i c)) (mkRetrievedDoc id fullDoc))
                       (totalResults c) (i c + 1) (j c))
  end.

(** [for (const index of indices)] for one token. *)
Fixpoint search_indices (st : Lyra) (limit offset : number) (exact : bool)
         (tolerance : value) (documentIdsFromNonSearchable : option (list string))
         (token : string) (indices : list string) (c : Cursor) : Cursor :=
  match indices with
  | [] => c
  | index_ :: rest =>
      let documentIDs := getDocumentIDsFromSearch st index_ token exact tolerance in
      let documentIDs :=
        match setIntersection (Some documentIDs) documentIdsFromNonSearchable with
        | Some s => s
        | None => []
        end in
      let documentIDs := setSubtraction documentIDs (documentAdded c) in
      if (List.length documentIDs =? 0)%nat then
        search_indices st limit offset exact tolerance
                       documentIdsFromNonSearchable token rest c
      else
        let c := mkCursor (documentAdded c) (results c)
                          (totalResults c + Z.of_nat (List.length documentIDs))
                          (i c) (j c) in
        if num_ge (Finite (i c) 0) limit then c
        else
          search_indices st limit offset exact tolerance
                         documentIdsFromNonSearchable token rest
                         (emit st limit offset documentIDs c)
  end.

(** [for (const token of tokens)]. *)
Definition search_tokens (st : Lyra) (limit offset : number) (exact : bool)
           (tolerance : value) (documentIdsFromNonSearchable : option (list string))
           (indices tokens : list string) (c : Cursor) : Cursor :=
  fold_left (fun c token =>
               search_indices st limit offset exact tolerance
                              documentIdsFromNonSearchable token indices c)
            tokens c.

Definition search (st : Lyra) (params : SearchParams) (language : option string)
  : result SearchResult :=
  let language := match language with Some l => l | None => defaultLanguage st end in
  rbind (tokenize (VStr (term params)) (Some language)) (fun tokens =>
  rbind (getIndices st (properties params)) (fun indices =>
  rbind (getNonSearchableIndices (where_ params) (schema st) "") (fun nonSearchable =>
  let (boolIndices, numericIndices) := nonSearchable in
  let limit := match limit params with Some l => l | None => Finite 10 0 end in
  let offset := match offset params with Some o => o | None => Finite 0 0 end in
  let exact := match exact params with Some b => b | None => false end in
  rbind (Array_from_length limit) (fun slots =>
  let documentIdsFromNonSearchable :=
    getDocumentIDsFromWhere st boolIndices numericIndices in
  let c := search_tokens st limit offset exact (tolerance params)
                         documentIdsFromNonSearchable indices tokens
                         (mkCursor [] slots 0 0 0) in
  Ok (mkSearchResult (totalResults c) (results c)))))).

(** The identifiers of the documents present in a hits array. *)
Fixpoint hit_ids (hits : list (option RetrievedDoc)) : list string :=
  match hits with
  | [] => []
  | Some h :: r => id h :: hit_ids r
  | None :: r => hit_ids r
  end.

Definition search_limit (params : SearchParams) : number :=
  match limit params with Some l => l | None => Finite 10 0 end.

(** The loop invariant, for an array that started with [slots] empty slots:
    the first [i] slots hold the emitted documents, the others are empty,
    every emitted identifier is distinct and recorded in [documentAdded],
    and every index written passed the test [i >= limit]. *)
Definition cursor_inv (limit : number) (slots : nat) (c : Cursor) : Prop :=
  exists hs : list RetrievedDoc,
    results c = (map Some hs ++ repeat None (slots - List.length hs))%list
    /\ i c = Z.of_nat (List.length hs)
    /\ (forall k, 0 <= k < i c -> num_ge (Finite k 0) limit = false)
    /\ NoDup (map id hs)
    /\ (forall x, In x (map id hs) -> In x (documentAdded c)).

Definition search_language (st : Lyra) (language : option string) : string :=
  match language with Some l => l | None => defaultLanguage st end.

(** What [insert] relies on from the tokenizer: called with a supported
    language, it raises neither of the two validation errors of [insert]. *)
Definition tokenizer_contract : Prop :=
  forall v l, includes SUPPORTED_LANGUAGES l = true ->
              tokenize v (Some l) <> Err LANGUAGE_NOT_SUPPORTED
              /\ tokenize v (Some l) <> Err INVALID_DOC_SCHEMA.


(** What a run of [buildIndex] adds to an engine: text indices at the paths
    [s], numeric indices at [n], boolean posting sets at [b]; keys stay
    distinct and the document table is untouched. *)
Definition extended (s n b : list string) (st st' : Lyra) : Prop :=
  keys_extend (map fst (index st)) (map fst (index st')) s
  /\ keys_extend (map fst (numericIndex st)) (map fst (numericIndex st')) n
  /\ keys_extend (map fst (booleanIndex st)) (map fst (booleanIndex st')) b
  /\ (NoDup (map fst (index st)) -> NoDup (map fst (index st')))
  /\ (NoDup (map fst (numericIndex st)) -> NoDup (map fst (numericIndex st')))
  /\ (NoDup (map fst (booleanIndex st)) -> NoDup (map fst (booleanIndex st')))
  /\ docs st' = docs st.

(** A computation that leaves the numeric and the boolean index as they
    are, whatever it returns or throws. *)
Definition keeps_filters {A} (c : M A) : Prop :=
  forall st, numericIndex (snd (c st)) = numericIndex st
             /\ booleanIndex (snd (c st)) = booleanIndex st.
End Engine.

(** ** A reference environment

    The tokenizer and the text index follow their description in the
    specification; they serve to run the engine on concrete inputs. *)

Module Reference.

(** Modelled from the spec: the enumerated set [SUPPORTED_LANGUAGES] of
    [./stemmer], whose source is missing; it contains the default
    language. *)
Definition SUPPORTED_LANGUAGES : list string :=
  ["dutch"; "english"; "french"; "italian"; "norwegian"; "portugese";
   "russian"; "spanish"; "swedish"].

Definition is_word_char (c : ascii) : bool :=
  let n := nat_of_ascii c in
  (((48 <=? n) && (n <=? 57)) || ((97 <=? n) && (n <=? 122)))%nat.

Fixpoint words_acc (s cur : string) : list string :=
  match s with
  | EmptyString => [string_rev cur]
  | String c r =>
      if is_word_char c then words_acc r (String c cur)
      else string_rev cur :: words_acc r ""
  end.

(** Modelled from the spec: [tokenize] of [./tokenizer], whose source is
    missing.  It lower-cases, splits on non-word characters and returns
    a set; stemming and stop words are left to the language plug-in.  It
    fails with [LANGUAGE_NOT_SUPPORTED] outside the enumerated set, and a
    non-string input is a [TypeError]. *)
Definition tokenize (input : value) (language : option string)
  : result (list string) :=
  let language := match language with Some l => l | None => "english" end in
  if negb (includes SUPPORTED_LANGUAGES language) then Err LANGUAGE_NOT_SUPPORTED
  else
    match input with
    | VStr s =>
        Ok (fold_left (fun acc w => set_add w acc)
                      (filter (fun w => negb (String.eqb w ""))
                              (words_acc (toLowerCase s) ""))
                      [])
    | _ => Err TypeError
    end.

(** Modelled from the spec: the text index of [./prefix-tree/trie], whose
    source is missing, as the mapping from tokens to posting sets that the
    radix tree represents. *)
Definition Trie : Type := list (string * list string).

Definition Trie_new : Trie := [].

(** Modelled from the spec: [insert(token, id)] adds [id] to the posting
    set of [token]; idempotent on the pair. *)
Definition Trie_insert (t : Trie) (token id : string) : Trie :=
  match map_get String.eqb token t with
  | Some ids => map_set String.eqb token (set_add id ids) t
  | None => map_set String.eqb token [id] t
  end.

(** Modelled from the spec: [remove(token, id)] removes [id] from the
    posting set of [token] and drops the token when the set becomes empty.
    The returned flag is the one [delete] throws on; a removal reports no
    failure. *)
Definition Trie_removeDocByWord (t : Trie) (token id : string) : bool * Trie :=
  match map_get String.eqb token t with
  | Some ids =>
      let ids' := set_delete id ids in
      (false, match ids' with
              | [] => map_delete String.eqb token t
              | _ => map_set String.eqb token ids' t
              end)
  | None => (false, t)
  end.

(** One row of the edit-distance table: [prev] is the row of the shorter
    prefix from the current column on, [left] the entry just computed. *)
Fixpoint next_row (a : ascii) (t : string) (prev : list nat) (left : nat) : list nat :=
  match t, prev with
  | String b t', d :: ((u :: _) as prev') =>
      let x := Nat.min (Nat.min (u + 1) (left + 1))
                       (d + if Ascii.eqb a b then 0 else 1) in
      x :: next_row a t' prev' x
  | _, _ => []
  end.

Fixpoint rows (s t : string) (row : list nat) : list nat :=
  match s with
  | EmptyString => row
  | String a s' =>
      let first := (hd O row + 1)%nat in
      rows s' t (first :: next_row a t row first)
  end.

Definition levenshtein (s t : string) : nat :=
  last (rows s t (seq 0 (S (String.length t)))) O.

(** Modelled from the spec: [find({term, exact, tolerance})].  Exact: the
    posting set of [term] when it is not empty.  Tolerance 0: the tokens
    that have [term] as a prefix.  Tolerance above 0: the tokens within
    that edit distance of [term]. *)
Definition Trie_find (t : Trie) (term : string) (exact : bool) (tolerance : value)
  : list (string * list string) :=
  if exact then filter (fun kv => String.eqb (fst kv) term) t
  else
    match tolerance with
    | VNum tol =>
        if num_lt (Finite 0 0) tol then
          filter (fun kv =>
                    num_le (Finite (Z.of_nat (levenshtein term (fst kv))) 0) tol) t
        else filter (fun kv => String.prefix term (fst kv)) t
    | _ => filter (fun kv => String.prefix term (fst kv)) t
    end.

#[export] Instance env : Env :=
  Build_Env Trie Trie_new Trie_insert Trie_removeDocByWord Trie_find
            SUPPORTED_LANGUAGES tokenize.

End Reference.

(** ** Sample engines in the reference environment *)

Module Sample.
Import Reference.

Definition run {A} (c : M A) (st : Lyra) : Lyra := snd (c st).

(** The engine [new Lyra({ schema })]; on a schema the constructor rejects,
    an engine with no index at all. *)
Definition engine (schema : value) : Lyra :=
  match new_Lyra schema None with
  | Ok st => st
  | Err _ => mkLyra "english" schema [] [] [] []
  end.

Definition bookSchema : value :=
  VObj [("title", VStr "string"); ("year", VStr "number");
        ("inStock", VStr "boolean")].

Definition lyraBook : value :=
  VObj [("title", VStr "The Lyra Book"); ("year", VNum (Finite 2022 0));
        ("inStock", VBool true)].

Definition cookbook : value :=
  VObj [("title", VStr "Lyra Cookbook"); ("year", VNum (Finite 2019 0));
        ("inStock", VBool false)].

(** Two books, inserted as ["A"] and ["B"]. *)
Definition books : Lyra :=
  run (insert "B" cookbook None) (run (insert "A" lyraBook None) (engine bookSchema)).

Definition query (term : string) (where_ : value) : SearchParams :=
  mkSearchParams term PropsUndefined None None None VUndefined where_.

Definition authorSchema : value :=
  VObj [("author", VObj [("name", VStr "string")])].

(** A document whose nested leaf is a number where the schema has text. *)
Definition numberedAuthor : value :=
  VObj [("author", VObj [("name", VNum (Finite 42 0))])].

Definition priceSchema : value := VObj [("price", VStr "number")].

(** The result of searching the two books for "lyra". *)
Definition lyraHits : SearchResult :=
  match search books (query "lyra" VUndefined) None with
  | Ok r => r
  | Err _ => mkSearchResult 0 []
  end.

(** A document with a number where [bookSchema] has text. *)
Definition numberedTitle : value := VObj [("title", VNum (Finite 42 0))].

Definition stockSchema : value :=
  VObj [("year", VStr "number"); ("inStock", VStr "boolean")].

Definition stockItem : value :=
  VObj [("year", VNum (Finite 2022 0)); ("inStock", VBool true)].


(** The filter [{ year: { ">=": 2019.5 } }]. *)
Definition sinceMid2019 : value :=
  VObj [("year", VObj [(">=", VNum (Finite 20195 1))])].

(** A document whose price is NaN. *)
Definition nanPrice : value := VObj [("price", VNum NaN)].

(** The query [{ term: "lyra", limit: 0.5 }]. *)
Definition halfLimit : SearchParams :=
  mkSearchParams "lyra" PropsUndefined (Some (Finite 5 1)) None None
                 VUndefined VUndefined.




(** The empty term, among the books in stock. *)
Definition noTerm : SearchParams := query "" (VObj [("inStock", VBool true)]).

(** Ten empty slots and a count of zero. *)
Definition noHits : SearchResult := mkSearchResult 0 (repeat None 10).

End Sample.

(** ** More sample engines and queries *)

Module Shelf.
Import Reference.

Definition titleSchema : value := VObj [("title", VStr "string")].

Definition lyraTitle : value := VObj [("title", VStr "The Lyra Book")].

(** An engine with text only, holding one document, ["A"]. *)
Definition titles : Lyra :=
  Sample.run (insert "A" lyraTitle None) (Sample.engine titleSchema).

(** A document whose title is null. *)
Definition nullTitle : value := VObj [("title", VNull)].

(** The two books with the first one inserted only. *)
Definition oneBook : Lyra :=
  Sample.run (insert "A" Sample.lyraBook None) (Sample.engine Sample.bookSchema).

Definition lyraInStock : SearchParams :=
  Sample.query "lyra" (VObj [("inStock", VBool true)]).

Definition result_of (r : result SearchResult) : SearchResult :=
  match r with
  | Ok x => x
  | Err _ => mkSearchResult 0 []
  end.

Definition inStockHits : SearchResult :=
  result_of (search Sample.books lyraInStock None).

(** The hit that search returns for the first book. *)
Definition lyraBookHit : RetrievedDoc :=
  mkRetrievedDoc "A" (Some Sample.lyraBook).

(** The second page of one: [{ term: "lyra", limit: 1, offset: 1 }]. *)
Definition secondPage : SearchParams :=
  mkSearchParams "lyra" PropsUndefined (Some (Finite 1 0)) (Some (Finite 1 0))
                 None VUndefined VUndefined.

Definition secondPageHits : SearchResult :=
  result_of (search Sample.books secondPage None).

(** A where clause that admits nothing: no book is from 1990. *)
Definition from1990 : SearchParams :=
  Sample.query "lyra" (VObj [("year", VObj [("=", VNum (Finite 1990 0))])]).

Definition from1990Hits : SearchResult :=
  result_of (search Sample.books from1990 None).

End Shelf.

(** ** Relations between the engine before and after a method *)

Section Frames.
Context {E : Env}.

(** [c] takes every engine to an engine related to it by [R], whatever it
    returns or throws. *)
Definition establishes {A} (R : Lyra -> Lyra -> Prop) (c : M A) : Prop :=
  forall st, R st (snd (c st)).

(** The same language and schema, and the same keys, in the same order, in
    the text, numeric and boolean indices. *)
Definition same_keys (st st' : Lyra) : Prop :=
  defaultLanguage st' = defaultLanguage st
  /\ schema st' = schema st
  /\ map fst (index st') = map fst (index st)
  /\ map fst (numericIndex st') = map fst (numericIndex st)
  /\ map fst (booleanIndex st') = map fst (booleanIndex st).

(** [same_keys], and the same document table. *)
Definition same_tables (st st' : Lyra) : Prop :=
  same_keys st st' /\ docs st' = docs st.

(** The candidates of one token in one property, after the filter: what
    [search] computes before it subtracts the documents already emitted. *)
Definition candidates (st : Lyra) (exact : bool) (tolerance : value)
           (fromWhere : option (list string)) (token index_ : string) : list string :=
  match setIntersection (Some (getDocumentIDsFromSearch st index_ token exact tolerance))
                        fromWhere with
  | Some s => s
  | None => []
  end.

Definition search_offset (params : SearchParams) : number :=
  match offset params with Some o => o | None => Finite 0 0 end.

Definition search_exact (params : SearchParams) : bool :=
  match exact params with Some b => b | None => false end.

(** The document filed under [k] in the boolean index. *)
Definition in_boolean (st : Lyra) (boolIndices : list string) (id : string) : Prop :=
  exists k posting,
    In k boolIndices
    /\ map_get String.eqb k (booleanIndex st) = Some posting
    /\ In id posting.

(** The documents one of the encoded numeric filters admits. *)
Definition in_numeric (st : Lyra) (numericIndices : list string) (id : string) : Prop :=
  exists v, In v numericIndices /\ In id (collect_numeric st [] v).

(** The language the constructor settles on. *)
Definition constructor_language (properties_defaultLanguage : option string) : string :=
  match properties_defaultLanguage with
  | Some l => toLowerCase l
  | None => "english"
  end.

(** Same language, schema and document table. *)
Definition same_settings (st st' : Lyra) : Prop :=
  defaultLanguage st' = defaultLanguage st
  /\ schema st' = schema st
  /\ docs st' = docs st.

(** Every posting set of the boolean and of the numeric index is still
    there, with at least the identifiers it had. *)
Definition postings_grow (st st' : Lyra) : Prop :=
  (forall k p, map_get String.eqb k (booleanIndex st) = Some p ->
               exists p', map_get String.eqb k (booleanIndex st') = Some p'
                          /\ incl p p')
  /\ (forall k m x p,
         map_get String.eqb k (numericIndex st) = Some m ->
         map_get same_value_zero x m = Some p ->
         exists m' p', map_get String.eqb k (numericIndex st') = Some m'
                       /\ map_get same_value_zero x m' = Some p'
                       /\ incl p p').

(** The cursor at the end of the loops of [search], for the tokens, the
    properties and the normalised where clause the call starts from. *)
Definition search_cursor (st : Lyra) (params : SearchParams)
           (tokens indices : list string) (ns : list string * list string) : Cursor :=
  search_tokens st (search_limit params) (search_offset params) (search_exact params)
                (tolerance params) (getDocumentIDsFromWhere st (fst ns) (snd ns))
                indices tokens
                (mkCursor [] (repeat None (Z.to_nat (ToLength (search_limit params)))) 0 0 0).

(** Every document in the array satisfies [Q]. *)
Definition hits_satisfy (Q : RetrievedDoc -> Prop)
           (results : list (option RetrievedDoc)) : Prop :=
  forall h, In (Some h) results -> Q h.

(** The engines a program can hold for the schema [s]: the one the
    constructor returns, and the ones calls of [insert] and [delete] leave,
    whether they return or throw. *)
Inductive reachable (s : value) : Lyra -> Prop :=
| reach_new dl st :
    new_Lyra s dl = Ok st -> reachable s st
| reach_insert st nanoid doc language :
    reachable s st -> reachable s (snd (insert nanoid doc language st))
| reach_delete st docID :
    reachable s st -> reachable s (snd (delete docID st)).
End Frames.

(** ** Induction on values, through the fields of objects *)

Section ValueInduction.
Variable P : value -> Prop.
Hypothesis PUndefined : P VUndefined.
Hypothesis PNull : P VNull.
Hypothesis PBool : forall b, P (VBool b).
Hypothesis PNum : forall n, P (VNum n).
Hypothesis PStr : forall s, P (VStr s).
Hypothesis PObj :
  forall fields, Forall (fun kv => P (snd kv)) fields -> P (VObj fields).

Fixpoint value_fields_ind (v : value) : P v :=
  match v with
  | VUndefined => PUndefined
  | VNull => PNull
  | VBool b => PBool b
  | VNum n => PNum n
  | VStr s => PStr s
  | VObj fields =>
      PObj fields
        ((fix go (fs : list (string * value)) : Forall (fun kv => P (snd kv)) fs :=
            match fs with
            | [] => Forall_nil _
            | kv :: r => Forall_cons kv (value_fields_ind (snd kv)) (go r)
            end) fields)
  end.
End ValueInduction.

(** * Properties *)

(** ** Sets and maps *)

Lemma set_has_In x s : set_has x s = true <-> In x s.
Proof.
  unfold set_has. rewrite existsb_exists. split.
  - intros [y [Hy Heq]]. apply String.eqb_eq in Heq. now subst.
  - intros H. exists x. split; [assumption | apply String.eqb_refl].
Qed.

Lemma set_has_false x s : set_has x s = false <-> ~ In x s.
Proof.
  rewrite <- set_has_In. destruct (set_has x s); split; congruence.
Qed.

Lemma set_add_In x y s : In y (set_add x s) <-> y = x \/ In y s.
Proof.
  unfold set_add. destruct (set_has x s) eqn:H.
  - apply set_has_In in H. split; [tauto | intros [-> | ?]; assumption].
  - rewrite in_app_iff. simpl. split; intros; intuition congruence.
Qed.

Lemma set_add_NoDup x s : NoDup s -> NoDup (set_add x s).
Proof.
  intros H. unfold set_add. destruct (set_has x s) eqn:Hx; [assumption |].
  apply set_has_false in Hx.
  apply NoDup_app; [assumption | repeat constructor; auto |].
  intros y Hy [-> | []]. contradiction.
Qed.

Lemma add_all_NoDup ids s : NoDup s -> NoDup (add_all ids s).
Proof.
  unfold add_all. revert s.
  induction ids as [| a ids IH]; intros s H; simpl; [assumption |].
  apply IH, set_add_NoDup, H.
Qed.

Lemma add_all_In ids s y : In y (add_all ids s) <-> In y ids \/ In y s.
Proof.
  unfold add_all. revert s.
  induction ids as [| a ids IH]; intros s; simpl; [tauto |].
  rewrite IH, set_add_In. intuition congruence.
Qed.

Lemma setSubtraction_In a b y :
  In y (setSubtraction a b) <-> In y a /\ ~ In y b.
Proof.
  unfold setSubtraction. rewrite filter_In, negb_true_iff, set_has_false. tauto.
Qed.

Lemma filter_NoDup {A} (f : A -> bool) l : NoDup l -> NoDup (filter f l).
Proof.
  induction 1 as [| x l Hx Hl IH]; simpl; [constructor |].
  destruct (f x); [constructor |]; try assumption.
  rewrite filter_In. tauto.
Qed.

Lemma setSubtraction_NoDup a b : NoDup a -> NoDup (setSubtraction a b).
Proof. apply filter_NoDup. Qed.

(** ** Numbers that are integers *)

Lemma pow10_pos e : 0 < 10 ^ Z.of_nat e.
Proof. apply Z.pow_pos_nonneg; lia. Qed.

Lemma num_eq_integer x z :
  num_eq x (Finite z 0) = true ->
  exists m e, x = Finite m e /\ m = z * 10 ^ Z.of_nat e.
Proof.
  destruct x as [| n | m e]; unfold num_eq; simpl;
    [discriminate | destruct n; discriminate |].
  rewrite Z.mul_1_r.
  destruct (Z.compare_spec m (z * 10 ^ Z.of_nat e)); try discriminate.
  intros _. eauto.
Qed.

(** [i >= x] for a counter [i] and a number [x] whose value is the integer [z]. *)
Lemma num_ge_integer i x z :
  num_eq x (Finite z 0) = true -> num_ge (Finite i 0) x = (z <=? i).
Proof.
  intros H. destruct (num_eq_integer _ _ H) as (m & e & -> & ->).
  unfold num_ge, num_le. simpl.
  rewrite Z.mul_1_r.
  pose proof (pow10_pos e) as P. remember (10 ^ Z.of_nat e) as A eqn:EA. clear EA.
  destruct (Z.compare_spec (z * A) (i * A)) as [Hc | Hc | Hc];
    symmetry; [apply Z.leb_le | apply Z.leb_le | apply Z.leb_gt]; nia.
Qed.

(** [j < x] for a counter [j] and a number [x] whose value is the integer [z]. *)
Lemma num_lt_integer j x z :
  num_eq x (Finite z 0) = true -> num_lt (Finite j 0) x = (j <? z).
Proof.
  intros H. destruct (num_eq_integer _ _ H) as (m & e & -> & ->).
  unfold num_lt. simpl.
  rewrite Z.mul_1_r.
  pose proof (pow10_pos e) as P. remember (10 ^ Z.of_nat e) as A eqn:EA. clear EA.
  destruct (Z.compare_spec (j * A) (z * A)) as [Hc | Hc | Hc];
    symmetry; [apply Z.ltb_ge | apply Z.ltb_lt | apply Z.ltb_ge]; nia.
Qed.

Lemma ToLength_integer x z :
  num_eq x (Finite z 0) = true -> 0 <= z ->
  ToLength x = Z.min z (2 ^ 53 - 1).
Proof.
  intros H Hz. destruct (num_eq_integer _ _ H) as (m & e & -> & ->).
  unfold ToLength. pose proof (pow10_pos e) as P.
  rewrite Z.quot_mul by lia. now rewrite Z.max_r.
Qed.

(** ** The hits of a search *)

Section SearchHits.
Context {E : Env}.

Lemma getDocumentIDsFromSearch_NoDup st index_ token exact tolerance :
  NoDup (getDocumentIDsFromSearch st index_ token exact tolerance).
Proof.
  unfold getDocumentIDsFromSearch.
  generalize (match map_get String.eqb index_ (index st) with
              | Some idx => Trie_find idx token exact tolerance
              | None => []
              end) as searchResult.
  assert (H : NoDup (@nil string)) by constructor.
  revert H. generalize (@nil string) as ids.
  intros ids H searchResult. revert ids H.
  induction searchResult as [| kv l IH]; intros ids H; simpl; [assumption |].
  apply IH, add_all_NoDup, H.
Qed.

Lemma candidates_NoDup (ids : list string) (fromWhere : option (list string)) :
  NoDup ids ->
  NoDup match setIntersection (Some ids) fromWhere with
        | Some s => s
        | None => []
        end.
Proof.
  intros H. destruct fromWhere; simpl; [apply filter_NoDup |]; assumption.
Qed.

Lemma hit_ids_holes (hs : list RetrievedDoc) n :
  hit_ids (map Some hs ++ repeat None n) = map id hs.
Proof.
  induction hs as [| h hs IH]; simpl.
  - induction n; simpl; auto.
  - now rewrite IH.
Qed.

Lemma array_set_next (hs : list RetrievedDoc) n h :
  array_set (map Some hs ++ repeat None (n - List.length hs)) (List.length hs) h
  = (map Some (hs ++ [h]) ++ repeat None (n - List.length (hs ++ [h])))%list.
Proof.
  revert n. induction hs as [| a hs IH]; intros n; simpl.
  - destruct n as [| n]; simpl; [reflexivity |]. now rewrite Nat.sub_0_r.
  - destruct n as [| n]; simpl; f_equal.
    + apply (IH O).
    + apply IH.
Qed.

Lemma emit_inv st limit offset slots documentIDs c :
  cursor_inv limit slots c ->
  NoDup documentIDs ->
  (forall x, In x documentIDs -> ~ In x (documentAdded c)) ->
  cursor_inv limit slots (emit st limit offset documentIDs c).
Proof.
  revert c. induction documentIDs as [| d rest IH]; intros c Hc Hnd Hfresh; simpl.
  - assumption.
  - inversion Hnd as [| ? ? Hd Hrest]; subst.
    destruct (num_lt (Finite (j c) 0) offset).
    + apply IH; [| assumption |].
      * destruct Hc as (hs & H1 & H2 & H3 & H4 & H5). exists hs. simpl. auto.
      * simpl. intros x Hx. apply Hfresh. now right.
    + destruct (num_ge (Finite (i c) 0) limit) eqn:Hlim; [assumption |].
      apply IH; [| assumption |].
      * destruct Hc as (hs & H1 & H2 & H3 & H4 & H5).
        exists (hs ++ [mkRetrievedDoc d (map_get String.eqb d (docs st))])%list.
        simpl. rewrite H1, H2, Nat2Z.id.
        rewrite array_set_next.
        split; [reflexivity |].
        rewrite length_app, map_app. simpl.
        split; [lia |]. split.
        { intros k Hk. destruct (Z.eq_dec k (i c)) as [-> | Hne];
            [assumption | apply H3; lia]. }
        split.
        -- apply NoDup_app; [assumption | repeat constructor; auto |].
           intros y Hy [<- | []]. apply (Hfresh d); [now left | auto].
        -- intros x Hx. apply in_app_iff in Hx. apply set_add_In.
           destruct Hx as [Hx | [<- | []]]; auto.
      * simpl. intros x Hx Hin. apply set_add_In in Hin.
        destruct Hin as [-> | Hin]; [contradiction |].
        apply (Hfresh x); [now right | assumption].
Qed.

Lemma search_indices_inv st limit offset slots exact tolerance fromWhere token indices c :
  cursor_inv limit slots c ->
  cursor_inv limit slots
    (search_indices st limit offset exact tolerance fromWhere token indices c).
Proof.
  revert c. induction indices as [| index_ rest IH]; intros c Hc; simpl; [assumption |].
  set (ids := setSubtraction _ _).
  destruct (List.length ids =? 0)%nat; [now apply IH |].
  simpl. destruct (num_ge (Finite (i c) 0) limit).
  - destruct Hc as (hs & H). exists hs. simpl. exact H.
  - apply IH. apply emit_inv.
    + destruct Hc as (hs & H). exists hs. simpl. exact H.
    + apply setSubtraction_NoDup, candidates_NoDup, getDocumentIDsFromSearch_NoDup.
    + simpl. intros x Hx. apply setSubtraction_In in Hx. tauto.
Qed.

Lemma search_tokens_inv st limit offset slots exact tolerance fromWhere indices tokens c :
  cursor_inv limit slots c ->
  cursor_inv limit slots
    (search_tokens st limit offset exact tolerance fromWhere indices tokens c).
Proof.
  unfold search_tokens. revert c.
  induction tokens as [| token rest IH]; intros c Hc; simpl; [assumption |].
  apply IH, search_indices_inv, Hc.
Qed.

Lemma cursor_inv_init limit slots :
  cursor_inv limit slots (mkCursor [] (repeat None slots) 0 0 0).
Proof.
  exists []. simpl. rewrite Nat.sub_0_r.
  split; [reflexivity |]. split; [reflexivity |]. split; [intros k Hk; lia |].
  split; [constructor | intros x []].
Qed.

(** [Array.from({ length })] either throws the [RangeError] or gives
    [ToLength(length)] empty slots, at most [2^32 - 1] of them. *)
Lemma Array_from_length_Ok {A} (x : number) (slots : list (option A)) :
  Array_from_length x = Ok slots ->
  slots = repeat None (Z.to_nat (ToLength x)) /\ ToLength x <= 2 ^ 32 - 1.
Proof.
  unfold Array_from_length. destruct (2 ^ 32 - 1 <? ToLength x) eqn:H; [discriminate |].
  intros H1. injection H1 as <-. apply Z.ltb_ge in H. auto.
Qed.

(** The shape of every successful search: the array could be allocated,
    and the cursor satisfies the invariant for the requested limit. *)
Lemma search_Ok_cursor st params language r :
  search st params language = Ok r ->
  ToLength (search_limit params) <= 2 ^ 32 - 1
  /\ exists c, cursor_inv (search_limit params)
                          (Z.to_nat (ToLength (search_limit params))) c
               /\ hits r = results c /\ count r = totalResults c.
Proof.
  unfold search. fold (search_limit params).
  destruct (tokenize _ _) as [tokens |]; simpl; [| discriminate].
  destruct (getIndices _ _) as [indices |]; simpl; [| discriminate].
  destruct (getNonSearchableIndices _ _ _) as [[boolIndices numericIndices] |];
    simpl; [| discriminate].
  destruct (Array_from_length (search_limit params)) as [slots |] eqn:Hs;
    simpl; [| discriminate].
  apply Array_from_length_Ok in Hs. destruct Hs as [-> Hlen].
  intros H. injection H as <-. split; [assumption |].
  eexists. split; [| split; reflexivity].
  apply search_tokens_inv, cursor_inv_init.
Qed.

(** C5 (amended).  No document identifier occurs twice among the hits of a
    search that returns, whatever the engine state and the parameters; and
    when the limit is a non-negative integer (10 when none is given) the
    hits array has at most [limit] entries. *)
Theorem search_hits_bounded_distinct st params language r :
  search st params language = Ok r ->
  NoDup (hit_ids (hits r))
  /\ (forall z, 0 <= z -> num_eq (search_limit params) (Finite z 0) = true ->
                Z.of_nat (List.length (hits r)) <= z).
Proof.
  intros H. apply search_Ok_cursor in H.
  destruct H as (Hlen & c & (hs & H1 & H2 & H3 & H4 & H5) & Hh & _).
  rewrite Hh, H1. split.
  - rewrite hit_ids_holes. assumption.
  - intros z Hz Hint.
    rewrite (ToLength_integer _ _ Hint Hz) in *.
    assert (Hi : i c <= z).
    { destruct (Z.eq_dec (i c) 0) as [-> | Hne]; [assumption |].
      assert (Hk : num_ge (Finite (i c - 1) 0) (search_limit params) = false)
        by (apply H3; lia).
      rewrite (num_ge_integer _ _ _ Hint) in Hk. apply Z.leb_gt in Hk. lia. }
    rewrite length_app, length_map, repeat_length. lia.
Qed.
End SearchHits.

(** ** A search whose term has no tokens *)

Section EmptyTerm.
Context {E : Env}.

(** C10.  When the term tokenizes to nothing, every search that returns has
    count 0 and no document among its hits, whatever the limit, offset,
    properties and where clause. *)
Theorem search_no_tokens st params language :
  tokenize (VStr (term params)) (Some (search_language st language)) = Ok [] ->
  forall r, search st params language = Ok r ->
            count r = 0 /\ hit_ids (hits r) = [].
Proof.
  intros Htok r. unfold search. fold (search_language st language).
  rewrite Htok. simpl.
  destruct (getIndices _ _) as [indices |]; simpl; [| discriminate].
  destruct (getNonSearchableIndices _ _ _) as [[boolIndices numericIndices] |];
    simpl; [| discriminate].
  destruct (Array_from_length _) as [slots |] eqn:Hs; simpl; [| discriminate].
  apply Array_from_length_Ok in Hs. destruct Hs as [-> _].
  intros H. injection H as <-. simpl. split; [reflexivity |].
  apply (hit_ids_holes [] _).
Qed.

(** A search returns exactly when the term can be tokenized, the properties
    and the where clause pass their validation, and the array of [limit]
    slots can be allocated. *)
Lemma search_returns st params language :
  (exists r, search st params language = Ok r) <->
  (exists tokens, tokenize (VStr (term params)) (Some (search_language st language))
                  = Ok tokens)
  /\ (exists indices, getIndices st (properties params) = Ok indices)
  /\ (exists ns, getNonSearchableIndices (where_ params) (schema st) "" = Ok ns)
  /\ ToLength (search_limit params) <= 2 ^ 32 - 1.
Proof.
  unfold search. fold (search_language st language) (search_limit params).
  unfold Array_from_length.
  destruct (tokenize _ _) as [tokens |];
    cbn [rbind].
  2:{ split; [intros [r H]; discriminate H | intros ([t H] & _); discriminate H]. }
  destruct (getIndices _ _) as [indices |];
    cbn [rbind].
  2:{ split; [intros [r H]; discriminate H | intros (_ & [t H] & _); discriminate H]. }
  destruct (getNonSearchableIndices _ _ _) as [[boolIndices numericIndices] |];
    cbn [rbind].
  2:{ split; [intros [r H]; discriminate H | intros (_ & _ & [t H] & _); discriminate H]. }
  destruct (2 ^ 32 - 1 <? ToLength (search_limit params)) eqn:Hlen;
    cbn [rbind].
  - apply Z.ltb_lt in Hlen.
    split; [intros [r H]; discriminate H | intros (_ & _ & _ & H); lia].
  - apply Z.ltb_ge in Hlen. split; [| eauto].
    intros _. repeat split; eauto.
Qed.
End EmptyTerm.

(** ** A failed [insert] *)

Section InsertFailure.
Context {E : Env}.

Lemma for_of_modify {A} (f : A -> Lyra -> Lyra) (l : list A) (st : Lyra) :
  exists st', for_of l (fun x => modify (f x)) st = (Ok tt, st').
Proof.
  revert st. induction l as [| x l IH]; intros st; simpl.
  - eexists. reflexivity.
  - unfold bind, modify at 1. apply IH.
Qed.

(** The only exceptions of the insertion walk are the [TypeError] of a null
    nested value and whatever the tokenizer raises. *)
Lemma recursiveTrieInsertion_errors id language doc :
  forall prefix st e st',
    recursiveTrieInsertion id language doc prefix st = (Err e, st') ->
    e = TypeError \/ exists v, tokenize v (Some language) = Err e.
Proof.
  induction doc as [| | b | n | s | fields IH] using value_fields_ind;
    intros prefix st e st'; simpl;
    try (unfold throw, ret; intros H; inversion H; subst; auto; fail).
  revert st. induction IH as [| [key v] rest Hv Hrest IHrest]; intros st.
  - unfold ret. discriminate.
  - simpl in Hv. unfold bind at 1.
    match goal with
    | |- context [match ?c st with _ => _ end] => destruct (c st) as [[[] | e0] st0] eqn:Hc
    end.
    + apply IHrest.
    + intros H. inversion H; subst. clear H.
      destruct v; simpl in Hc.
      * discriminate.
      * inversion Hc; auto.
      * discriminate.
      * discriminate.
      * unfold bind, lift in Hc.
        destruct (tokenize (VStr s) (Some language)) as [tokens |] eqn:Ht.
        -- destruct (for_of_modify
                       (fun token => set_index (map_update (prefix ++ key)
                                      (fun t => Trie_insert t token id))) tokens st)
             as [st1 Hst1].
           rewrite Hst1 in Hc. discriminate.
        -- inversion Hc; subst. right. eauto.
      * apply (Hv _ _ _ _ Hc).
Qed.

(** C9.  If [insert] throws [LANGUAGE_NOT_SUPPORTED] or [INVALID_DOC_SCHEMA],
    the engine it leaves is the engine it was called on: document table, text,
    boolean and numeric indices are all unchanged. *)
Theorem insert_throw_unchanged nanoid doc language st e st' :
  tokenizer_contract ->
  insert nanoid doc language st = (Err e, st') ->
  e = LANGUAGE_NOT_SUPPORTED \/ e = INVALID_DOC_SCHEMA ->
  st' = st.
Proof.
  intros Htok. unfold insert, bind, this.
  fold (search_language st language).
  destruct (includes SUPPORTED_LANGUAGES (search_language st language)) eqn:Hlang; simpl.
  2: { unfold throw. intros H _. now inversion H. }
  destruct (checkInsertDocSchema st doc); simpl.
  2: { unfold throw. intros H _. now inversion H. }
  unfold queue_push, _insert, bind, modify.
  match goal with
  | |- context [recursiveTrieInsertion ?a ?b ?c ?d ?s] =>
      destruct (recursiveTrieInsertion a b c d s) as [[[] | e0] st0] eqn:Hrti
  end.
  - unfold ret. discriminate.
  - intros H He. inversion H; subst. exfalso.
    apply recursiveTrieInsertion_errors in Hrti.
    destruct (Htok doc (search_language st language) Hlang) as [_ _].
    destruct Hrti as [-> | [v Hv]].
    + destruct He; discriminate.
    + destruct (Htok v _ Hlang) as [H1 H2].
      destruct He; subst; contradiction.
Qed.
End InsertFailure.

(** ** Maps: reading back what was set *)

Lemma map_get_set_same {K V} (keq : K -> K -> bool) (k : K) (v : V) m :
  keq k k = true -> map_get keq k (map_set keq k v m) = Some v.
Proof.
  intros Hk. induction m as [| [k' v'] m IH]; simpl.
  - now rewrite Hk.
  - destruct (keq k k') eqn:H; simpl; rewrite H; [reflexivity | assumption].
Qed.

Lemma same_value_zero_refl x : same_value_zero x x = true.
Proof.
  destruct x as [| [] | m e]; try reflexivity.
  unfold same_value_zero, num_eq. simpl. now rewrite Z.compare_refl.
Qed.

(** ** Validation of inserted documents *)

Section DocumentValidation.
Context {E : Env}.

(** C2 (the code departs from the claim).  The check does not look inside
    nested objects: a document whose field [author] is an object passes
    whatever that object contains, and the document with a number at
    [author.name], where the schema declares text, is accepted by [insert]
    and stored in the document table. *)
Theorem insert_accepts_nested_mismatch (st : Lyra) language :
  schema st = Sample.authorSchema ->
  includes SUPPORTED_LANGUAGES (search_language st language) = true ->
  (forall inner, checkInsertDocSchema st (VObj [("author", VObj inner)]) = true)
  /\ exists st',
      insert "A" Sample.numberedAuthor language st = (Ok "A", st')
      /\ map_get String.eqb "A" (docs st') = Some Sample.numberedAuthor.
Proof.
  intros Hs Hl. split.
  - intros inner. unfold checkInsertDocSchema. rewrite Hs. reflexivity.
  - unfold insert, bind, this. fold (search_language st language).
    rewrite Hl. unfold checkInsertDocSchema. rewrite Hs. simpl.
    eexists. split; [reflexivity |].
    simpl. apply map_get_set_same, String.eqb_refl.
Qed.

End DocumentValidation.

(** ** Validation of the where clause *)

Section WhereValidation.
Context {E : Env}.


Lemma getNonSearchableIndices_cons schema prefix key propValue rest :
  getNonSearchableIndices (VObj ((key, propValue) :: rest)) schema prefix
  = rbind (where_property schema prefix key propValue) (fun pushed =>
    rbind (getNonSearchableIndices (VObj rest) schema prefix) (fun later =>
    Ok (push_all pushed later))).
Proof.
  unfold where_property. cbn [getNonSearchableIndices truthy negb].
  destruct (get_checked schema key); reflexivity.
Qed.







End WhereValidation.

(** ** Index construction *)

Lemma map_set_keys {V} k (v : V) m p :
  In p (map fst (map_set String.eqb k v m)) <-> In p (map fst m) \/ p = k.
Proof.
  induction m as [| [k' v'] m IH]; simpl.
  - intuition.
  - destruct (String.eqb k k') eqn:H; simpl.
    + apply String.eqb_eq in H. subst. intuition.
    + rewrite IH. intuition.
Qed.

Lemma map_set_keys_NoDup {V} k (v : V) m :
  NoDup (map fst m) -> NoDup (map fst (map_set String.eqb k v m)).
Proof.
  induction m as [| [k' v'] m IH]; simpl; intros H.
  - repeat constructor. intros [].
  - inversion H as [| ? ? Hk' Hm]; subst.
    destruct (String.eqb k k') eqn:Hk; simpl; [now constructor |].
    constructor; [| now apply IH].
    rewrite map_set_keys. intros [Hin | ->]; [contradiction |].
    now rewrite String.eqb_refl in Hk.
Qed.

Lemma keys_extend_refl ks : keys_extend ks ks [].
Proof. intros p. simpl. tauto. Qed.

Lemma keys_extend_trans ks ks1 ks2 n1 n2 :
  keys_extend ks ks1 n1 -> keys_extend ks1 ks2 n2 ->
  keys_extend ks ks2 (n1 ++ n2).
Proof.
  intros H1 H2 p. rewrite (H2 p), (H1 p), in_app_iff. tauto.
Qed.

Section IndexConstruction.
Context {E : Env}.

Lemma extended_refl st : extended [] [] [] st st.
Proof.
  unfold extended. repeat split; auto using keys_extend_refl;
    try (intros [H | []]; assumption); try (intros H; now left).
Qed.

Lemma extended_trans s1 n1 b1 s2 n2 b2 st st1 st2 :
  extended s1 n1 b1 st st1 -> extended s2 n2 b2 st1 st2 ->
  extended (s1 ++ s2) (n1 ++ n2) (b1 ++ b2) st st2.
Proof.
  intros (A1 & A2 & A3 & A4 & A5 & A6 & A7) (B1 & B2 & B3 & B4 & B5 & B6 & B7).
  unfold extended.
  repeat split; eauto using keys_extend_trans; try congruence;
    try (apply (keys_extend_trans _ _ _ _ _ A1 B1));
    try (apply (keys_extend_trans _ _ _ _ _ A2 B2));
    try (apply (keys_extend_trans _ _ _ _ _ A3 B3)).
Qed.

Lemma extended_text k st :
  extended [k] [] [] st (set_index (map_set String.eqb k Trie_new) st).
Proof.
  unfold extended, keys_extend. simpl.
  repeat split; auto; try tauto; try apply map_set_keys_NoDup;
    try (rewrite map_set_keys); intuition.
Qed.

Lemma extended_number k st :
  extended [] [k] [] st (set_numericIndex (map_set String.eqb k []) st).
Proof.
  unfold extended, keys_extend. simpl.
  repeat split; auto; try tauto; try apply map_set_keys_NoDup;
    try (rewrite map_set_keys); intuition.
Qed.

Lemma extended_boolean k st :
  extended [] [] [k ++ "_true"; k ++ "_false"] st
           (set_booleanIndex (map_set String.eqb (k ++ "_false") [])
              (set_booleanIndex (map_set String.eqb (k ++ "_true") []) st)).
Proof.
  unfold extended, keys_extend. simpl.
  repeat split; auto; try tauto;
    try (intros; now do 2 apply map_set_keys_NoDup);
    try (rewrite !map_set_keys); intuition.
Qed.

Lemma buildIndex_cons prefix prop propValue rest :
  buildIndex (VObj ((prop, propValue) :: rest)) prefix
  = bind (buildIndex_property prefix prop propValue)
         (fun _ => buildIndex (VObj rest) prefix).
Proof. reflexivity. Qed.

Lemma leaf_paths_cons ty prefix prop propValue rest :
  leaf_paths ty (VObj ((prop, propValue) :: rest)) prefix
  = (leaf_paths ty (VObj [(prop, propValue)]) prefix
     ++ leaf_paths ty (VObj rest) prefix)%list.
Proof. simpl. now rewrite app_nil_r. Qed.

(** A run of [buildIndex] either adds exactly the indices of the leaves with
    a known type, or stops on the [TypeError] of a null value. *)
Lemma buildIndex_spec schema :
  forall prefix st,
    match buildIndex schema prefix st with
    | (Ok _, st') =>
        extended (leaf_paths "string" schema prefix)
                 (leaf_paths "number" schema prefix)
                 (boolean_keys (leaf_paths "boolean" schema prefix)) st st'
    | (Err e, _) => e = TypeError
    end.
Proof.
  induction schema as [| | b | n | s | fields IH] using value_fields_ind;
    intros prefix st; try (simpl; apply extended_refl); try reflexivity.
  revert st. induction IH as [| [prop propValue] rest Hv Hrest IHrest]; intros st.
  - simpl. apply extended_refl.
  - rewrite buildIndex_cons. unfold bind.
    assert (Hfield :
              match buildIndex_property prefix prop propValue st with
              | (Ok _, st1) =>
                  extended
                    (leaf_paths "string" (VObj [(prop, propValue)]) prefix)
                    (leaf_paths "number" (VObj [(prop, propValue)]) prefix)
                    (boolean_keys (leaf_paths "boolean" (VObj [(prop, propValue)]) prefix))
                    st st1
              | (Err e, _) => e = TypeError
              end).
    { simpl in Hv. unfold buildIndex_property.
      destruct propValue as [| | b | n | t | fs]; simpl;
        try apply extended_refl; try reflexivity.
      - destruct (String.eqb t "string") eqn:H1.
        { apply String.eqb_eq in H1. subst t. simpl. apply extended_text. }
        destruct (String.eqb t "boolean") eqn:H2.
        { apply String.eqb_eq in H2. subst t. simpl. apply extended_boolean. }
        destruct (String.eqb t "number") eqn:H3.
        { apply String.eqb_eq in H3. subst t. simpl. apply extended_number. }
        simpl. apply extended_refl.
      - specialize (Hv ((prefix ++ prop) ++ ".") st).
        simpl in Hv. rewrite !app_nil_r. exact Hv. }
    destruct (buildIndex_property prefix prop propValue st) as [[[] | e] st1];
      [| assumption].
    specialize (IHrest st1).
    destruct (buildIndex (VObj rest) prefix st1) as [[[] | e] st2]; [| assumption].
    rewrite (leaf_paths_cons "string"), (leaf_paths_cons "number"),
      (leaf_paths_cons "boolean").
    unfold boolean_keys in *. rewrite flat_map_app.
    eapply extended_trans; eassumption.
Qed.



End IndexConstruction.

(** ** Deletion *)

Section Deletion.
Context {E : Env}.

Lemma keeps_ret {A} (a : A) : keeps_filters (ret a).
Proof. intros st. split; reflexivity. Qed.

Lemma keeps_throw {A} e : keeps_filters (throw (A := A) e).
Proof. intros st. split; reflexivity. Qed.

Lemma keeps_lift {A} (r : result A) : keeps_filters (lift r).
Proof. intros st. split; reflexivity. Qed.

Lemma keeps_this : keeps_filters this.
Proof. intros st. split; reflexivity. Qed.

Lemma keeps_set_index f : keeps_filters (modify (set_index f)).
Proof. intros st. split; reflexivity. Qed.

Lemma keeps_set_docs f : keeps_filters (modify (set_docs f)).
Proof. intros st. split; reflexivity. Qed.

Lemma keeps_bind {A B} (c : M A) (f : A -> M B) :
  keeps_filters c -> (forall a, keeps_filters (f a)) -> keeps_filters (bind c f).
Proof.
  intros Hc Hf st. unfold bind. specialize (Hc st).
  destruct (c st) as [[a | e] st1]; simpl in *.
  - destruct (Hf a st1) as [H1 H2]. destruct Hc as [H3 H4]. split; congruence.
  - exact Hc.
Qed.

Lemma keeps_for_of {A} (l : list A) (body : A -> M unit) :
  (forall x, keeps_filters (body x)) -> keeps_filters (for_of l body).
Proof.
  intros Hb. induction l as [| x l IH]; simpl.
  - apply keeps_ret.
  - apply keeps_bind; auto.
Qed.

Create HintDb keeps.
#[local] Hint Resolve keeps_ret keeps_throw keeps_lift keeps_this keeps_set_index
  keeps_set_docs keeps_bind keeps_for_of : keeps.

Lemma keeps_remove_token key docID token : keeps_filters (remove_token key docID token).
Proof.
  unfold remove_token. apply keeps_bind; [apply keeps_this |]. intros st.
  destruct (map_get String.eqb key (index st)); [| apply keeps_throw].
  destruct (Trie_removeDocByWord t token docID) as [failed idx'].
  apply keeps_bind; [apply keeps_set_index |]. intros _.
  destruct failed; auto with keeps.
Qed.

(** [delete] never writes to the numeric or the boolean index. *)
Lemma delete_keeps_filters docID : keeps_filters (delete docID).
Proof.
  unfold delete. apply keeps_bind; [apply keeps_this |]. intros st.
  destruct (negb (map_has String.eqb docID (docs st))); [apply keeps_throw |].
  apply keeps_bind.
  - apply keeps_for_of. intros key. apply keeps_bind; [apply keeps_lift |].
    intros tokens. apply keeps_for_of. intros token. apply keeps_remove_token.
  - intros _. apply keeps_bind; [apply keeps_set_docs |]. intros _. apply keeps_ret.
Qed.

(** C1 (the code departs from the claim).  A document with a number and a
    boolean leaf is inserted as ["A"] and then deleted.  Whatever [delete]
    returns or throws, in every environment, ["A"] is still in the posting
    set of its year in the numeric index and in the posting set
    [inStock_true] of the boolean index. *)
Theorem delete_leaves_filter_postings dl st0 language :
  new_Lyra Sample.stockSchema dl = Ok st0 ->
  includes SUPPORTED_LANGUAGES (search_language st0 language) = true ->
  let st1 := snd (insert "A" Sample.stockItem language st0) in
  let st2 := snd (delete "A" st1) in
  map_get String.eqb "A" (docs st1) = Some Sample.stockItem
  /\ numericIndex st2 = [("year", [(Finite 2022 0, ["A"])])]
  /\ booleanIndex st2 = [("inStock_true", ["A"]); ("inStock_false", [])].
Proof.
  intros Hnew Hl st1 st2.
  assert (Hst0 : exists l, st0 = mkLyra l Sample.stockSchema [] []
                                 [("year", [])]
                                 [("inStock_true", []); ("inStock_false", [])]).
  { unfold new_Lyra in Hnew.
    destruct (includes SUPPORTED_LANGUAGES _); simpl in Hnew; [| discriminate].
    injection Hnew as <-. eexists. reflexivity. }
  destruct Hst0 as [l Hst0].
  assert (Hst1 : st1 = mkLyra l Sample.stockSchema [("A", Sample.stockItem)] []
                             [("year", [(Finite 2022 0, ["A"])])]
                             [("inStock_true", ["A"]); ("inStock_false", [])]).
  { unfold st1, insert, bind, this. fold (search_language st0 language).
    rewrite Hl. subst st0. reflexivity. }
  destruct (delete_keeps_filters "A" st1) as [Hn Hb].
  fold st2 in Hn, Hb. rewrite Hn, Hb, Hst1. repeat split.
Qed.
End Deletion.

(** ** Numeric filters *)

Lemma string_append_assoc (a b c : string) : (a ++ b) ++ c = a ++ (b ++ c).
Proof. induction a as [| x a IH]; simpl; [reflexivity | now rewrite IH]. Qed.

Lemma string_rev_acc_app s acc : string_rev_acc s acc = string_rev_acc s "" ++ acc.
Proof.
  revert acc. induction s as [| c s IH]; intros acc; simpl; [reflexivity |].
  rewrite (IH (String c acc)), (IH (String c "")).
  now rewrite string_append_assoc.
Qed.

Lemma split_acc_no_dot s cur :
  no_dot s = true -> split_acc "." s cur = [string_rev_acc cur s].
Proof.
  revert cur. induction s as [| c s IH]; intros cur H; simpl in *; [reflexivity |].
  apply andb_prop in H. destruct H as [Hc Hs].
  apply negb_true_iff in Hc. rewrite Hc. now rewrite IH.
Qed.

Lemma split_acc_dot a b cur :
  split_acc "." (a ++ String "." b) cur
  = (split_acc "." a cur ++ split_acc "." b "")%list.
Proof.
  revert cur. induction a as [| c a IH]; intros cur; simpl; [reflexivity |].
  destruct (Ascii.eqb c "."); simpl; now rewrite IH.
Qed.

Lemma split_acc_not_nil s cur : split_acc "." s cur <> [].
Proof.
  revert cur. induction s as [| c s IH]; intros cur; simpl; [discriminate |].
  destruct (Ascii.eqb c "."); [discriminate | apply IH].
Qed.

Lemma join_split_acc s cur :
  join "." (split_acc "." s cur) = string_rev_acc cur s.
Proof.
  revert cur. induction s as [| c s IH]; intros cur; simpl; [reflexivity |].
  destruct (Ascii.eqb c ".") eqn:Hc.
  - apply Ascii.eqb_eq in Hc. subst c.
    pose proof (split_acc_not_nil s "") as Hne.
    destruct (split_acc "." s "") as [| x l] eqn:Hsp; [now destruct Hne |].
    change (join "." (string_rev cur :: x :: l))
      with (string_rev cur ++ "." ++ join "." (x :: l)).
    rewrite <- Hsp, IH. simpl.
    now rewrite (string_rev_acc_app cur (String "." s)).
  - apply IH.
Qed.

(** Splitting the name built by [handleNumeric] gives back the path, the
    operator and the printed value when neither of the last two has a dot. *)
Lemma virtual_index_decoded path op printed :
  no_dot op = true -> no_dot printed = true ->
  let rawIndex := string_split "." (path ++ "." ++ op ++ "." ++ printed) in
  join "." (slice_drop_last 2 rawIndex) = path
  /\ at_from_end 2 rawIndex = Some op
  /\ at_from_end 1 rawIndex = Some printed.
Proof.
  intros Hop Hpr rawIndex.
  assert (Hraw : rawIndex = (string_split "." path ++ [op; printed])%list).
  { unfold rawIndex, string_split.
    change (path ++ "." ++ op ++ "." ++ printed)
      with (path ++ String "." (op ++ String "." printed)).
    rewrite !split_acc_dot, (split_acc_no_dot op), (split_acc_no_dot printed) by assumption.
    reflexivity. }
  rewrite Hraw. unfold slice_drop_last, at_from_end.
  rewrite length_app. simpl List.length.
  set (n := List.length (string_split "." path)).
  replace (n + 2 - 2)%nat with n by lia.
  replace (n + 2 - 1)%nat with (n + 1)%nat by lia.
  replace (2 <=? n + 2)%nat with true by (symmetry; apply Nat.leb_le; lia).
  replace (1 <=? n + 2)%nat with true by (symmetry; apply Nat.leb_le; lia).
  split; [| split].
  - unfold n. rewrite firstn_app, Nat.sub_diag, firstn_all. simpl.
    rewrite app_nil_r. apply join_split_acc.
  - rewrite nth_error_app2 by (unfold n; lia).
    unfold n. now rewrite Nat.sub_diag.
  - rewrite nth_error_app2 by (unfold n; lia).
    replace (n + 1 - List.length (string_split "." path))%nat with 1%nat
      by (unfold n; lia).
    reflexivity.
Qed.

Lemma allowed_no_dot op :
  includes allowedNumericComparison op = true -> no_dot op = true.
Proof.
  unfold includes, allowedNumericComparison. simpl. intros H.
  repeat (apply orb_prop in H; destruct H as [H | H];
          [apply String.eqb_eq in H; subst; reflexivity |]).
  discriminate.
Qed.

(** What the five operators compute. *)
Lemma createPredicateForNumericComparison_spec valueSearched value :
  createPredicateForNumericComparison (Some "<") valueSearched value
  = num_lt value valueSearched
  /\ createPredicateForNumericComparison (Some "<=") valueSearched value
     = num_le value valueSearched
  /\ createPredicateForNumericComparison (Some "=") valueSearched value
     = num_eq value valueSearched
  /\ createPredicateForNumericComparison (Some ">") valueSearched value
     = num_lt valueSearched value
  /\ createPredicateForNumericComparison (Some ">=") valueSearched value
     = num_le valueSearched value.
Proof. repeat split. Qed.

Section NumericFilters.
Context {E : Env}.

Lemma collect_ranges_In (current : list (number * list string)) keys acc id :
  In id (fold_left (fun acc range =>
                      match map_get same_value_zero range current with
                      | Some ids => add_all ids acc
                      | None => acc
                      end) keys acc)
  <-> In id acc
      \/ exists range ids, In range keys
                           /\ map_get same_value_zero range current = Some ids
                           /\ In id ids.
Proof.
  revert acc. induction keys as [| k keys IH]; intros acc; simpl.
  - split; [auto | intros [H | (r & ids & [] & _)]; exact H].
  - rewrite IH. destruct (map_get same_value_zero k current) as [ids |] eqn:Hk.
    + rewrite add_all_In. split.
      * intros [[H | H] | (r & ids' & Hr & Hg & Hi)]; eauto 8.
      * intros [H | (r & ids' & [<- | Hr] & Hg & Hi)]; eauto 8.
        rewrite Hk in Hg. injection Hg as <-. auto.
    + split.
      * intros [H | (r & ids' & Hr & Hg & Hi)]; eauto 8.
      * intros [H | (r & ids' & [<- | Hr] & Hg & Hi)]; eauto 8.
        rewrite Hk in Hg. discriminate.
Qed.

(** Where the numeric filter is sound.  For a target whose printed form has
    no dot and reads back as the target, the filter [{ path: { op: v } }]
    admits exactly the documents filed under a key [x] of the numeric index
    of [path] for which the comparison of [x] with [v] holds. *)
Theorem numeric_filter_sound_without_dot (st : Lyra) path op v current :
  includes allowedNumericComparison op = true ->
  no_dot (number_to_string v) = true ->
  Number (number_to_string v) = v ->
  map_get String.eqb path (numericIndex st) = Some current ->
  forall id,
    In id (collect_numeric st [] (path ++ "." ++ op ++ "." ++ number_to_string v))
    <-> exists x ids,
        In x (map fst current)
        /\ createPredicateForNumericComparison (Some op) v x = true
        /\ map_get same_value_zero x current = Some ids
        /\ In id ids.
Proof.
  intros Hop Hdot Hread Hcur id. unfold collect_numeric.
  destruct (virtual_index_decoded path op (number_to_string v)
              (allowed_no_dot op Hop) Hdot) as (H1 & H2 & H3).
  rewrite H1, H2, H3, Hread, Hcur, collect_ranges_In. split.
  - intros [[] | (x & ids & Hx & Hg & Hi)].
    apply filter_In in Hx. destruct Hx as [Hx Hp]. eauto 8.
  - intros (x & ids & Hx & Hp & Hg & Hi). right. exists x, ids.
    rewrite filter_In. auto.
Qed.
End NumericFilters.

(** ** Runs in the reference environment *)

Lemma reference_tokenizer_contract : tokenizer_contract (E := Reference.env).
Proof.
  intros v l H. change (includes Reference.SUPPORTED_LANGUAGES l = true) in H.
  change (tokenize v (Some l)) with (Reference.tokenize v (Some l)).
  unfold Reference.tokenize. rewrite H. simpl.
  destruct v; split; discriminate.
Qed.

Lemma search_hits_bounded_distinct_witness :
  NoDup (hit_ids (hits Sample.lyraHits))
  /\ Z.of_nat (List.length (hits Sample.lyraHits)) <= 10.
Proof.
  destruct (search_hits_bounded_distinct (E := Reference.env)
              Sample.books (Sample.query "lyra" VUndefined) None Sample.lyraHits)
    as [H1 H2].
  - vm_compute. reflexivity.
  - split; [exact H1 | apply H2; [lia | reflexivity]].
Defined.

(** C5, as stated, fails: with [limit: 0.5] the array starts with no slot,
    the test [0 >= 0.5] lets the first document through, and the hits array
    has one entry, more than [limit]. *)
Lemma fractional_limit_exceeded :
  search (E := Reference.env) Sample.books Sample.halfLimit None
  = Ok (mkSearchResult 2 [Some (mkRetrievedDoc "A" (Some Sample.lyraBook))])
  /\ search_limit Sample.halfLimit = Finite 5 1
  /\ num_lt (Finite 5 1) (Finite 1 0) = true.
Proof. vm_compute. repeat split. Qed.

Lemma search_no_tokens_witness :
  search (E := Reference.env) Sample.books Sample.noTerm None = Ok Sample.noHits
  /\ count Sample.noHits = 0 /\ hit_ids (hits Sample.noHits) = [].
Proof.
  assert (H : search (E := Reference.env) Sample.books Sample.noTerm None
              = Ok Sample.noHits) by (vm_compute; reflexivity).
  split; [exact H |].
  apply (search_no_tokens (E := Reference.env) Sample.books Sample.noTerm None);
    [vm_compute; reflexivity | exact H].
Defined.

Lemma insert_throw_unchanged_witness :
  Sample.run (insert "C" Sample.numberedTitle None) (Sample.engine Sample.bookSchema)
  = Sample.engine Sample.bookSchema.
Proof.
  apply (insert_throw_unchanged (E := Reference.env) "C" Sample.numberedTitle None
           (Sample.engine Sample.bookSchema) INVALID_DOC_SCHEMA).
  - exact reference_tokenizer_contract.
  - vm_compute. reflexivity.
  - right. reflexivity.
Defined.

Lemma insert_accepts_nested_mismatch_witness :
  (forall inner,
      checkInsertDocSchema (Sample.engine Sample.authorSchema)
                           (VObj [("author", VObj inner)]) = true)
  /\ exists st',
      insert "A" Sample.numberedAuthor None (Sample.engine Sample.authorSchema)
      = (Ok "A", st')
      /\ map_get String.eqb "A" (docs st') = Some Sample.numberedAuthor.
Proof.
  apply (insert_accepts_nested_mismatch (E := Reference.env)
           (Sample.engine Sample.authorSchema) None).
  - vm_compute. reflexivity.
  - vm_compute. reflexivity.
Defined.

(** C6, as stated, fails: a document whose number leaf is NaN is not
    rejected; it is indexed under the key NaN. *)
Lemma insert_NaN_not_rejected :
  let r := insert "A" (VObj [("price", VNum NaN)]) None
                  (Sample.engine Sample.priceSchema) in
  fst r = Ok "A"
  /\ fst r <> Err INVALID_DOC_SCHEMA
  /\ numericIndex (snd r) = [("price", [(NaN, ["A"])])].
Proof.
  vm_compute. repeat split. discriminate.
Qed.



Lemma delete_leaves_filter_postings_witness :
  let st0 := Sample.engine Sample.stockSchema in
  let st1 := snd (insert "A" Sample.stockItem None st0) in
  let st2 := snd (delete "A" st1) in
  map_get String.eqb "A" (docs st1) = Some Sample.stockItem
  /\ numericIndex st2 = [("year", [(Finite 2022 0, ["A"])])]
  /\ booleanIndex st2 = [("inStock_true", ["A"]); ("inStock_false", [])].
Proof.
  apply (delete_leaves_filter_postings (E := Reference.env) None
           (Sample.engine Sample.stockSchema) None).
  - vm_compute. reflexivity.
  - vm_compute. reflexivity.
Defined.

(** In the reference environment, deleting the first of the two books stops
    on the [TypeError] of its [year] key, which has no trie: the book has
    left the text index but is still in the document table and in both
    filter indices. *)
Example delete_book_run :
  let r := delete "A" Sample.books in
  fst r = Err TypeError
  /\ map_get String.eqb "A" (docs (snd r)) = Some Sample.lyraBook
  /\ index (snd r) = [("title", [("lyra", ["B"]); ("cookbook", ["B"])])]
  /\ numericIndex (snd r)
     = [("year", [(Finite 2022 0, ["A"]); (Finite 2019 0, ["B"])])]
  /\ booleanIndex (snd r) = [("inStock_true", ["A"]); ("inStock_false", ["B"])].
Proof. vm_compute. repeat split. Qed.

(** C3 (the code departs from the claim).  The filter
    [{ year: { ">=": 2019.5 } }] is encoded as ["year.>=.2019.5"]; split at
    the dots, it names the index ["year.>="], which does not exist, so the
    filter admits no document: the search for "lyra" returns nothing, although
    the book of 2022 matches the term and [2022 >= 2019.5] holds.  With the
    integer target 2019 the same search returns both books. *)
Theorem fractional_target_admits_nothing :
  getNonSearchableIndices Sample.sinceMid2019 Sample.bookSchema ""
  = Ok ([], ["year.>=.2019.5"])
  /\ getDocumentIDsFromWhere Sample.books [] ["year.>=.2019.5"] = Some []
  /\ search Sample.books (Sample.query "lyra" Sample.sinceMid2019) None
     = Ok (mkSearchResult 0 (repeat None 10))
  /\ get Sample.lyraBook "year" = VNum (Finite 2022 0)
  /\ num_ge (Finite 2022 0) (Finite 20195 1) = true
  /\ search Sample.books
            (Sample.query "lyra" (VObj [("year", VObj [(">=", VNum (Finite 2019 0))])]))
            None
     = Ok Sample.lyraHits.
Proof. vm_compute. repeat split. Qed.



(** The integer target 2020 prints without a dot and reads back: the filter
    [{ year: { ">=": 2020 } }] admits exactly the documents filed under a
    year that is at least 2020. *)
Example numeric_filter_sound_2020 :
  forall id,
    In id (collect_numeric Sample.books [] "year.>=.2020")
    <-> exists x ids,
        In x [Finite 2022 0; Finite 2019 0]
        /\ num_le (Finite 2020 0) x = true
        /\ map_get same_value_zero x
                   [(Finite 2022 0, ["A"]); (Finite 2019 0, ["B"])] = Some ids
        /\ In id ids.
Proof.
  apply (numeric_filter_sound_without_dot (E := Reference.env)
           Sample.books "year" ">=" (Finite 2020 0)
           [(Finite 2022 0, ["A"]); (Finite 2019 0, ["B"])]);
    vm_compute; reflexivity.
Qed.

(** * Further properties of the methods *)

(** ** What [insert] and [delete] change *)

Lemma map_set_existing_keys {V} k (v v' : V) m :
  map_get String.eqb k m = Some v ->
  map fst (map_set String.eqb k v' m) = map fst m.
Proof.
  induction m as [| [k' w] m IH]; simpl; [discriminate |].
  destruct (String.eqb k k'); simpl; [reflexivity |].
  intros H. now rewrite IH.
Qed.

Lemma map_update_keys {V} k (f : V -> V) m :
  map fst (map_update k f m) = map fst m.
Proof.
  unfold map_update. destruct (map_get String.eqb k m) eqn:H; [| reflexivity].
  eapply map_set_existing_keys, H.
Qed.

Section EngineFrames.
Context {E : Env}.

Lemma same_keys_refl st : same_keys st st.
Proof. repeat split. Qed.

Lemma same_keys_trans st1 st2 st3 :
  same_keys st1 st2 -> same_keys st2 st3 -> same_keys st1 st3.
Proof.
  intros (A1 & A2 & A3 & A4 & A5) (B1 & B2 & B3 & B4 & B5).
  repeat split; congruence.
Qed.

Lemma same_tables_refl st : same_tables st st.
Proof. split; [apply same_keys_refl | reflexivity]. Qed.

Lemma same_tables_trans st1 st2 st3 :
  same_tables st1 st2 -> same_tables st2 st3 -> same_tables st1 st3.
Proof.
  intros [A1 A2] [B1 B2]. split; [eapply same_keys_trans; eassumption | congruence].
Qed.

Section Establishes.
Variable R : Lyra -> Lyra -> Prop.
Hypothesis R_refl : forall st, R st st.
Hypothesis R_trans : forall st1 st2 st3, R st1 st2 -> R st2 st3 -> R st1 st3.

Lemma establishes_ret {A} (a : A) : establishes R (ret a).
Proof. intros st. apply R_refl. Qed.

Lemma establishes_throw {A} e : establishes R (throw (A := A) e).
Proof. intros st. apply R_refl. Qed.

Lemma establishes_lift {A} (r : result A) : establishes R (lift r).
Proof. intros st. apply R_refl. Qed.

Lemma establishes_this : establishes R this.
Proof. intros st. apply R_refl. Qed.

Lemma establishes_bind {A B} (c : M A) (f : A -> M B) :
  establishes R c -> (forall a, establishes R (f a)) -> establishes R (bind c f).
Proof.
  intros Hc Hf st. unfold bind. specialize (Hc st).
  destruct (c st) as [[a | e] st1]; simpl in *; [| exact Hc].
  eapply R_trans; [exact Hc | apply Hf].
Qed.

Lemma establishes_for_of {A} (l : list A) (body : A -> M unit) :
  (forall x, establishes R (body x)) -> establishes R (for_of l body).
Proof.
  intros Hb. induction l as [| x l IH]; simpl.
  - apply establishes_ret.
  - apply establishes_bind; auto.
Qed.
End Establishes.

Lemma same_tables_update_index k f st :
  same_tables st (set_index (map_update k f) st).
Proof. repeat split. simpl. apply map_update_keys. Qed.

Lemma same_tables_update_numeric k f st :
  same_tables st (set_numericIndex (map_update k f) st).
Proof. repeat split. simpl. apply map_update_keys. Qed.

Lemma same_tables_update_boolean k f st :
  same_tables st (set_booleanIndex (map_update k f) st).
Proof. repeat split. simpl. apply map_update_keys. Qed.

(** The insertion walk only updates indices that exist: it creates no index
    and leaves the document table alone, even when it throws. *)
Lemma recursiveTrieInsertion_same_tables id language doc :
  forall prefix, establishes same_tables (recursiveTrieInsertion id language doc prefix).
Proof.
  induction doc as [| | b | n | s | fields IH] using value_fields_ind;
    intros prefix; try (intros st; apply same_tables_refl).
  induction IH as [| [key v] rest Hv Hrest IHrest]; intros st.
  - apply same_tables_refl.
  - simpl in Hv. simpl. unfold bind at 1.
    match goal with
    | |- context [match ?c st with _ => _ end] =>
        assert (Hb : same_tables st (snd (c st)));
        [| destruct (c st) as [[[] | e] st1]; simpl in Hb]
    end.
    + destruct v as [| | b | n | s | fs]; simpl.
      * apply same_tables_refl.
      * apply same_tables_refl.
      * apply same_tables_update_boolean.
      * apply same_tables_update_numeric.
      * apply (establishes_bind same_tables same_tables_trans).
        -- apply (establishes_lift same_tables same_tables_refl).
        -- intros tokens.
           apply (establishes_for_of same_tables same_tables_refl same_tables_trans).
           intros token st0. apply same_tables_update_index.
      * apply Hv.
    + eapply same_tables_trans; [exact Hb | apply (IHrest st1)].
    + exact Hb.
Qed.

(** A run of [_insert] files the document under its identifier and changes
    nothing else of the document table, the schema or the keys of the
    indices. *)
Lemma _insert_effects doc id language st :
  docs (snd (_insert doc id language st)) = map_set String.eqb id doc (docs st)
  /\ same_keys st (snd (_insert doc id language st)).
Proof.
  unfold _insert, bind, modify.
  pose proof (recursiveTrieInsertion_same_tables id language doc ""
                (set_docs (map_set String.eqb id doc) st)) as [Hk Hd].
  destruct (recursiveTrieInsertion id language doc "" _) as [[[] | e] st1];
    simpl in *; (split; [exact Hd | exact Hk]).
Qed.

(** X1.  When [insert] returns, the identifier it returns is the generated
    one, the document table maps it to the document (every other entry is as
    before), and the schema, the language and the keys of the three indices
    are unchanged: inserting never creates an index. *)
Theorem insert_stores_document nanoid doc language st i st' :
  insert nanoid doc language st = (Ok i, st') ->
  i = nanoid
  /\ docs st' = map_set String.eqb nanoid doc (docs st)
  /\ map_get String.eqb nanoid (docs st') = Some doc
  /\ same_keys st st'.
Proof.
  unfold insert, bind, this.
  destruct (includes SUPPORTED_LANGUAGES _); simpl; [| discriminate].
  destruct (checkInsertDocSchema st doc); simpl; [| discriminate].
  unfold queue_push.
  match goal with
  | |- context [_insert ?d ?n ?l st] =>
      destruct (_insert_effects d n l st) as [Hd Hk];
      destruct (_insert d n l st) as [[[] | e] st1]; simpl in *
  end; [| discriminate].
  unfold ret. intros H. injection H as <- <-.
  repeat split; try apply Hk; try exact Hd.
  rewrite Hd. apply map_get_set_same, String.eqb_refl.
Qed.

Lemma recursiveTrieInsertion_null id language fields key :
  In (key, VNull) fields ->
  forall prefix st,
    exists e st', recursiveTrieInsertion id language (VObj fields) prefix st = (Err e, st').
Proof.
  induction fields as [| [k v] rest IH]; intros Hin prefix st; [destruct Hin |].
  simpl. unfold bind at 1.
  destruct Hin as [Heq | Hin].
  - injection Heq as -> ->. simpl. eauto.
  - match goal with
    | |- context [match ?c st with _ => _ end] =>
        destruct (c st) as [[[] | e] st1]
    end; [apply (IH Hin) | eauto].
Qed.

(** X2.  A field whose value is null is never looked at by the schema check;
    a document that has one and passes the check is filed in the document
    table, and then [insert] throws: the [TypeError] of walking the null
    value, or an exception of the tokenizer raised on an earlier field. *)
Theorem insert_null_field_stored nanoid fields key language st :
  checkInsertDocSchema st (VObj fields) = true ->
  includes SUPPORTED_LANGUAGES (search_language st language) = true ->
  In (key, VNull) fields ->
  exists e st',
    insert nanoid (VObj fields) language st = (Err e, st')
    /\ (e = TypeError
        \/ exists v, tokenize v (Some (search_language st language)) = Err e)
    /\ map_get String.eqb nanoid (docs st') = Some (VObj fields)
    /\ same_keys st st'.
Proof.
  intros Hcheck Hlang Hin. unfold insert, bind, this.
  fold (search_language st language). rewrite Hlang, Hcheck. simpl.
  unfold queue_push.
  destruct (_insert_effects (VObj fields) nanoid (search_language st language) st)
    as [Hd Hk].
  unfold _insert, bind, modify in *.
  destruct (recursiveTrieInsertion_null nanoid (search_language st language)
              fields key Hin "" (set_docs (map_set String.eqb nanoid (VObj fields)) st))
    as (e & st1 & Hrti).
  pose proof (recursiveTrieInsertion_errors _ _ _ _ _ _ _ Hrti) as Herr.
  rewrite Hrti in *. simpl in Hd, Hk. exists e, st1.
  split; [reflexivity |]. split; [exact Herr |].
  split; [| exact Hk]. rewrite Hd. apply map_get_set_same, String.eqb_refl.
Qed.
End EngineFrames.

Lemma map_has_In {V} k (m : list (string * V)) :
  map_has String.eqb k m = true <-> In k (map fst m).
Proof.
  unfold map_has. induction m as [| [k' v] m IH]; simpl.
  - split; [discriminate | intros []].
  - destruct (String.eqb k k') eqn:H.
    + apply String.eqb_eq in H. subst. split; auto.
    + apply String.eqb_neq in H. rewrite IH. split; [auto | intros [Hk | Hk]; congruence].
Qed.

Lemma map_get_not_In {V} k (m : list (string * V)) :
  ~ In k (map fst m) -> map_get String.eqb k m = None.
Proof.
  intros H. destruct (map_get String.eqb k m) eqn:Hg; [| reflexivity].
  exfalso. apply H, map_has_In. unfold map_has. now rewrite Hg.
Qed.

Lemma map_get_In_Some {V} k (m : list (string * V)) :
  In k (map fst m) -> exists v, map_get String.eqb k m = Some v.
Proof.
  intros H. apply map_has_In in H. unfold map_has in H.
  destruct (map_get String.eqb k m) as [v |]; [eauto | discriminate].
Qed.

Lemma map_get_delete_same {V} k (m : list (string * V)) :
  NoDup (map fst m) -> map_get String.eqb k (map_delete String.eqb k m) = None.
Proof.
  induction m as [| [k' v] m IH]; simpl; intros H; [reflexivity |].
  inversion H as [| ? ? Hk Hm]; subst.
  destruct (String.eqb k k') eqn:He; simpl.
  - apply String.eqb_eq in He. subst. now apply map_get_not_In.
  - rewrite He. now apply IH.
Qed.

Lemma map_get_delete_other {V} k other (m : list (string * V)) :
  other <> k ->
  map_get String.eqb other (map_delete String.eqb k m) = map_get String.eqb other m.
Proof.
  intros Hne. induction m as [| [k' v] m IH]; simpl; [reflexivity |].
  destruct (String.eqb k k') eqn:He; simpl.
  - apply String.eqb_eq in He. subst.
    apply String.eqb_neq in Hne. now rewrite Hne.
  - now rewrite IH.
Qed.

Section Deleting.
Context {E : Env}.

Lemma remove_token_same_tables key docID token :
  establishes same_tables (remove_token key docID token).
Proof.
  intros st. unfold remove_token, bind, this.
  destruct (map_get String.eqb key (index st)) as [idx |] eqn:Hidx;
    [| apply same_tables_refl].
  destruct (Trie_removeDocByWord idx token docID) as [failed idx'].
  unfold modify.
  assert (H : same_tables st (set_index (map_set String.eqb key idx') st)).
  { repeat split. simpl. eapply map_set_existing_keys, Hidx. }
  destruct failed; exact H.
Qed.

Lemma delete_loop_same_tables document docID :
  establishes same_tables
    (for_of (for_in_keys document) (fun key =>
       bind (lift (tokenize (get document key) None)) (fun tokens =>
       for_of tokens (remove_token key docID)))).
Proof.
  apply (establishes_for_of same_tables same_tables_refl same_tables_trans).
  intros key. apply (establishes_bind same_tables same_tables_trans).
  - apply (establishes_lift same_tables same_tables_refl).
  - intros tokens.
    apply (establishes_for_of same_tables same_tables_refl same_tables_trans).
    intros token. apply remove_token_same_tables.
Qed.

(** X3.  Whatever [delete] does, the schema, the language and the keys of
    the three indices stay as they are.  When it returns, it returns [true]
    and the document table has lost the entry of the identifier and nothing
    else; when it throws, the document table is unchanged (the tries may
    already have lost some of the document's tokens).  On an unknown
    identifier it throws [DOC_ID_DOES_NOT_EXISTS] and changes nothing. *)
Theorem delete_effects docID st r st' :
  delete docID st = (r, st') ->
  same_keys st st'
  /\ (forall b, r = Ok b ->
                b = true /\ docs st' = map_delete String.eqb docID (docs st))
  /\ (forall e, r = Err e -> docs st' = docs st)
  /\ (map_has String.eqb docID (docs st) = false ->
      r = Err DOC_ID_DOES_NOT_EXISTS /\ st' = st).
Proof.
  unfold delete. unfold bind at 1. unfold this.
  destruct (map_has String.eqb docID (docs st)) eqn:Hhas; simpl.
  - unfold bind at 1.
    match goal with
    | |- context [for_of (for_in_keys ?d) ?body st] =>
        pose proof (delete_loop_same_tables d docID st) as [Hk Hd];
        destruct (for_of (for_in_keys d) body st) as [[[] | e] st1]
    end; simpl in Hk, Hd.
    + unfold bind, modify, ret. intros H. injection H as <- <-.
      split; [exact Hk |]. split; [| split]; try discriminate.
      intros b Hb. injection Hb as <-. simpl. now rewrite Hd.
    + intros H. injection H as <- <-.
      split; [exact Hk |]. split; [| split]; try discriminate.
      intros e0 _. exact Hd.
  - unfold throw. intros H. injection H as <- <-.
    split; [apply same_keys_refl |]. split; [| split]; try discriminate; auto.
Qed.

Lemma for_of_succeeds {A} (P : Lyra -> Prop) (l : list A) (body : A -> M unit) :
  (forall x, In x l -> forall st, P st ->
             exists st', body x st = (Ok tt, st') /\ P st') ->
  forall st, P st -> exists st', for_of l body st = (Ok tt, st') /\ P st'.
Proof.
  induction l as [| x l IH]; intros Hb st HP; simpl.
  - exists st. split; [reflexivity | assumption].
  - unfold bind. destruct (Hb x (or_introl eq_refl) st HP) as (st1 & -> & HP1).
    apply IH; [| assumption]. intros y Hy. apply Hb. now right.
Qed.

Lemma remove_token_succeeds key docID token st :
  (forall t tok id, fst (Trie_removeDocByWord t tok id) = false) ->
  In key (map fst (index st)) ->
  exists st', remove_token key docID token st = (Ok tt, st') /\ same_tables st st'.
Proof.
  intros Hrm Hin.
  pose proof (remove_token_same_tables key docID token st) as Hsame.
  unfold remove_token, bind, this in *.
  apply map_has_In in Hin. unfold map_has in Hin.
  destruct (map_get String.eqb key (index st)) as [idx |]; [| discriminate].
  specialize (Hrm idx token docID).
  destruct (Trie_removeDocByWord idx token docID) as [failed idx'].
  simpl in Hrm. subst failed. unfold modify, ret in *. simpl in *. eauto.
Qed.

(** X4.  With a trie whose removal reports no failure, [delete] returns
    [true] for a stored document all of whose top-level keys have a text
    index and a value the tokenizer accepts; afterwards the identifier is
    no longer in the document table and every other entry is as before. *)
Theorem delete_flat_document docID fields st :
  (forall t tok id, fst (Trie_removeDocByWord t tok id) = false) ->
  map_get String.eqb docID (docs st) = Some (VObj fields) ->
  (forall k, In k (map fst fields) ->
             In k (map fst (index st))
             /\ exists tokens, tokenize (get (VObj fields) k) None = Ok tokens) ->
  NoDup (map fst (docs st)) ->
  exists st',
    delete docID st = (Ok true, st')
    /\ map_get String.eqb docID (docs st') = None
    /\ (forall other, other <> docID ->
                      map_get String.eqb other (docs st')
                      = map_get String.eqb other (docs st)).
Proof.
  intros Hrm Hdoc Hkeys Hnd.
  set (P := fun st1 : Lyra => same_tables st st1).
  assert (Hloop : exists st1,
             for_of (for_in_keys (VObj fields)) (fun key =>
               bind (lift (tokenize (get (VObj fields) key) None)) (fun tokens =>
               for_of tokens (remove_token key docID))) st = (Ok tt, st1)
             /\ P st1).
  { apply (for_of_succeeds P); [| apply same_tables_refl].
    intros k Hk st1 HP1. destruct (Hkeys k Hk) as [Hin [tokens Htok]].
    unfold bind, lift. rewrite Htok.
    apply (for_of_succeeds P); [| exact HP1].
    intros token _ st2 HP2.
    destruct (remove_token_succeeds k docID token st2 Hrm) as (st3 & Hst3 & Hsame).
    { destruct HP2 as [(_ & _ & Hix & _) _]. now rewrite Hix. }
    exists st3. split; [exact Hst3 |]. eapply same_tables_trans; eassumption. }
  destruct Hloop as (st1 & Hloop & [_ Hd]).
  exists (set_docs (map_delete String.eqb docID) st1).
  unfold delete. unfold bind at 1. unfold this.
  assert (Hhas : map_has String.eqb docID (docs st) = true)
    by (unfold map_has; now rewrite Hdoc).
  rewrite Hhas, Hdoc. cbn [negb]. unfold bind at 1. rewrite Hloop.
  split; [reflexivity |]. simpl. rewrite Hd. split.
  - now apply map_get_delete_same.
  - intros other Hne. now apply map_get_delete_other.
Qed.
End Deleting.

(** ** Properties, documents and the constructor *)

Section Validation.
Context {E : Env}.

Lemma check_known_Ok known l :
  (forall x, In x l -> In x known) -> check_known known l = Ok tt.
Proof.
  induction l as [| x l IH]; intros H; simpl; [reflexivity |].
  assert (Hx : includes known x = true) by (apply set_has_In, H; now left).
  rewrite Hx. simpl. apply IH. intros y Hy. apply H. now right.
Qed.

Lemma check_known_Err known l x :
  In x l -> ~ In x known -> check_known known l = Err INVALID_PROPERTY.
Proof.
  induction l as [| y l IH]; intros Hin Hx; simpl; [destruct Hin |].
  destruct (includes known y) eqn:Hy; simpl; [| reflexivity].
  destruct Hin as [-> | Hin]; [| now apply IH].
  apply set_has_In in Hy. contradiction.
Qed.

(** X5.  [getIndices] answers with all the text indices when no properties
    are given or the properties are ["*"], and with the given array when all
    its entries are text indices; any other string, and an array with an
    entry that is not a text index, is an [INVALID_PROPERTY]. *)
Theorem getIndices_spec (st : Lyra) :
  getIndices st PropsUndefined = Ok (map fst (index st))
  /\ getIndices st (PropsString "*") = Ok (map fst (index st))
  /\ (forall s, s <> "*" -> s <> "" ->
                getIndices st (PropsString s) = Err INVALID_PROPERTY)
  /\ (forall l, (forall x, In x l -> In x (map fst (index st))) ->
                getIndices st (PropsArray l) = Ok l)
  /\ (forall l x, In x l -> ~ In x (map fst (index st)) ->
                  getIndices st (PropsArray l) = Err INVALID_PROPERTY).
Proof.
  split; [reflexivity |]. split; [reflexivity |]. split; [| split].
  - intros s H1 H2. unfold getIndices.
    apply String.eqb_neq in H1, H2. now rewrite H1, H2.
  - intros l H. unfold getIndices. now rewrite check_known_Ok.
  - intros l x Hin Hx. unfold getIndices. now rewrite (check_known_Err _ _ x).
Qed.

Lemma is_str_get_has_key schema key t :
  is_str (get schema key) t = true -> has_key schema key = true.
Proof.
  unfold get, has_key. destruct schema; try discriminate.
  destruct (assoc key fields); [reflexivity | discriminate].
Qed.

Lemma is_str_true v t : is_str v t = true <-> v = VStr t.
Proof.
  unfold is_str. destruct v; try (split; discriminate).
  rewrite String.eqb_eq. split; [now intros -> | congruence].
Qed.

(** X6.  On a document none of whose values is an object or null, the schema
    check accepts exactly when every field of the document is declared in the
    schema with the type name of its value; fields of the schema that the
    document lacks are not required. *)
Theorem checkInsertDocSchema_flat (st : Lyra) fields :
  (forall k v, In (k, v) fields -> typeof v <> "object") ->
  (checkInsertDocSchema st (VObj fields) = true
   <-> forall k v, In (k, v) fields -> get (schema st) k = VStr (typeof v)).
Proof.
  unfold checkInsertDocSchema.
  induction fields as [| [key v] rest IH]; intros Hflat.
  - split; [intros _ k v [] | reflexivity].
  - assert (Hv : String.eqb (typeof v) "object" = false)
      by (apply String.eqb_neq, (Hflat key v); now left).
    assert (Hrest : forall k w, In (k, w) rest -> typeof w <> "object")
      by (intros k w Hk; apply (Hflat k w); now right).
    specialize (IH Hrest).
    change (recursiveCheck (VObj ((key, v) :: rest)) (schema st))
      with (if negb (has_key (schema st) key) then false
            else if String.eqb (typeof v) "object"
                 then recursiveCheck (VObj rest) (schema st)
                 else if negb (is_str (get (schema st) key) (typeof v)) then false
                      else recursiveCheck (VObj rest) (schema st)).
    rewrite Hv.
    destruct (is_str (get (schema st) key) (typeof v)) eqn:Hs.
    + rewrite (is_str_get_has_key _ _ _ Hs). simpl. rewrite IH.
      apply is_str_true in Hs. split.
      * intros H k w [Heq | Hin]; [injection Heq as <- <-; exact Hs | now apply H].
      * intros H k w Hin. apply H. now right.
    + assert (Hfalse : (if negb (has_key (schema st) key) then false
                        else if negb false then false
                             else recursiveCheck (VObj rest) (schema st)) = false)
        by (destruct (has_key (schema st) key); reflexivity).
      rewrite Hfalse. split; [discriminate |].
      intros H. specialize (H key v (or_introl eq_refl)).
      apply is_str_true in H. congruence.
Qed.
End Validation.

Section Constructor.
Context {E : Env}.

Lemma same_settings_refl st : same_settings st st.
Proof. repeat split. Qed.

Lemma same_settings_trans st1 st2 st3 :
  same_settings st1 st2 -> same_settings st2 st3 -> same_settings st1 st3.
Proof. intros (A1 & A2 & A3) (B1 & B2 & B3). repeat split; congruence. Qed.

Lemma buildIndex_same_settings schema :
  forall prefix, establishes same_settings (buildIndex schema prefix).
Proof.
  induction schema as [| | b | n | s | fields IH] using value_fields_ind;
    intros prefix; try (intros st; apply same_settings_refl).
  induction IH as [| [prop propValue] rest Hv Hrest IHrest].
  - intros st. apply same_settings_refl.
  - rewrite buildIndex_cons.
    apply (establishes_bind same_settings same_settings_trans); [| intros _; exact IHrest].
    unfold buildIndex_property. simpl in Hv.
    destruct propValue as [| | b | n | t | fs]; simpl;
      try (intros st; apply same_settings_refl).
    + destruct (String.eqb t "string"); [intros st; repeat split |].
      destruct (String.eqb t "boolean"); [intros st; repeat split |].
      destruct (String.eqb t "number"); intros st; repeat split.
    + apply Hv.
Qed.

(** X7.  The constructor lower-cases the given default language (English
    when none is given) and fails with [LANGUAGE_NOT_SUPPORTED] exactly when
    that language is not supported, whatever the schema; the engine it
    returns records that language and the schema, and has no document. *)
Theorem new_Lyra_language properties_schema dl :
  (new_Lyra properties_schema dl = Err LANGUAGE_NOT_SUPPORTED
   <-> includes SUPPORTED_LANGUAGES (constructor_language dl) = false)
  /\ (forall st, new_Lyra properties_schema dl = Ok st ->
                 defaultLanguage st = constructor_language dl
                 /\ includes SUPPORTED_LANGUAGES (defaultLanguage st) = true
                 /\ schema st = properties_schema
                 /\ docs st = []).
Proof.
  unfold new_Lyra. fold (constructor_language dl).
  destruct (includes SUPPORTED_LANGUAGES (constructor_language dl)) eqn:Hl; simpl.
  - pose proof (buildIndex_spec properties_schema ""
                  (mkLyra (constructor_language dl) properties_schema [] [] [] []))
      as Hspec.
    pose proof (buildIndex_same_settings properties_schema ""
                  (mkLyra (constructor_language dl) properties_schema [] [] [] []))
      as (H1 & H2 & H3).
    destruct (buildIndex properties_schema "" _) as [[[] | e] st']; simpl in *.
    + split; [split; discriminate |].
      intros st H. injection H as <-. rewrite H1, H2, H3. auto.
    + subst e. split; [split; discriminate | discriminate].
  - split; [split; reflexivity | discriminate].
Qed.
End Constructor.

(** ** The filter set *)

Section FilterSet.
Context {E : Env}.

Lemma collect_boolean_fold_In (st : Lyra) boolIndices acc id :
  In id (fold_left (collect_boolean st) boolIndices acc)
  <-> In id acc \/ in_boolean st boolIndices id.
Proof.
  unfold in_boolean. revert acc.
  induction boolIndices as [| k l IH]; intros acc; simpl.
  - split; [auto | intros [H | (k & p & [] & _)]; exact H].
  - rewrite IH. unfold collect_boolean at 1.
    destruct (map_get String.eqb k (booleanIndex st)) as [p |] eqn:Hk.
    + rewrite add_all_In. split.
      * intros [[H | H] | (k' & p' & Hk' & Hg & Hi)]; eauto 8.
      * intros [H | (k' & p' & [<- | Hk'] & Hg & Hi)]; eauto 8.
        rewrite Hk in Hg. injection Hg as <-. auto.
    + split.
      * intros [H | (k' & p' & Hk' & Hg & Hi)]; eauto 8.
      * intros [H | (k' & p' & [<- | Hk'] & Hg & Hi)]; eauto 8.
        rewrite Hk in Hg. discriminate.
Qed.

Lemma collect_numeric_acc (st : Lyra) acc v id :
  In id (collect_numeric st acc v)
  <-> In id acc \/ In id (collect_numeric st [] v).
Proof.
  unfold collect_numeric.
  destruct (map_get String.eqb _ (numericIndex st)) as [current |].
  - rewrite !collect_ranges_In. simpl. tauto.
  - simpl. tauto.
Qed.

Lemma collect_numeric_fold_In (st : Lyra) numericIndices acc id :
  In id (fold_left (collect_numeric st) numericIndices acc)
  <-> In id acc \/ in_numeric st numericIndices id.
Proof.
  unfold in_numeric. revert acc.
  induction numericIndices as [| v l IH]; intros acc; simpl.
  - split; [auto | intros [H | (v & [] & _)]; exact H].
  - rewrite IH, collect_numeric_acc. split.
    + intros [[H | H] | (v' & Hv' & Hi)]; eauto 8.
    + intros [H | (v' & [<- | Hv'] & Hi)]; eauto 8.
Qed.

(** X8.  The filter set of a where clause.  With no boolean and no numeric
    lookup there is no constraint ([null]).  Otherwise a document is admitted
    when it is filed under one of the boolean lookups, if there are any, and
    admitted by one of the numeric lookups, if there are any: lookups of the
    same kind are alternatives, and the two kinds are intersected. *)
Theorem getDocumentIDsFromWhere_spec (st : Lyra) boolIndices numericIndices :
  (boolIndices = [] -> numericIndices = [] ->
   getDocumentIDsFromWhere st boolIndices numericIndices = None)
  /\ (boolIndices <> [] \/ numericIndices <> [] ->
      exists F,
        getDocumentIDsFromWhere st boolIndices numericIndices = Some F
        /\ forall id,
            In id F
            <-> (boolIndices = [] \/ in_boolean st boolIndices id)
                /\ (numericIndices = [] \/ in_numeric st numericIndices id)).
Proof.
  split.
  - intros -> ->. reflexivity.
  - intros Hne. unfold getDocumentIDsFromWhere.
    destruct boolIndices as [| b bs]; destruct numericIndices as [| n ns].
    + destruct Hne as [H | H]; now destruct H.
    + eexists. split; [reflexivity |]. intros id.
      rewrite collect_numeric_fold_In. simpl. split.
      * intros [[] | H]. split; [now left | now right].
      * intros [_ [H | H]]; [discriminate | now right].
    + eexists. split; [reflexivity |]. intros id.
      rewrite collect_boolean_fold_In. simpl. split.
      * intros [[] | H]. split; [now right | now left].
      * intros [[H | H] _]; [discriminate | now right].
    + eexists. split; [reflexivity |]. intros id.
      cbn [List.length Nat.ltb Nat.leb setIntersection].
      rewrite filter_In, set_has_In, collect_boolean_fold_In, collect_numeric_fold_In.
      simpl. split.
      * intros [[[] | H1] [[] | H2]]. split; now right.
      * intros [[H1 | H1] [H2 | H2]]; try discriminate. split; now right.
Qed.
End FilterSet.

(** ** Filing a document and finding it again *)

Lemma map_get_set_other {V} k k2 (v : V) m :
  k <> k2 ->
  map_get String.eqb k (map_set String.eqb k2 v m) = map_get String.eqb k m.
Proof.
  intros Hne. induction m as [| [k' w] m IH]; simpl.
  - apply String.eqb_neq in Hne. now rewrite Hne.
  - destruct (String.eqb k2 k') eqn:H2; simpl; [| now rewrite IH].
    apply String.eqb_eq in H2. subst k'.
    apply String.eqb_neq in Hne. now rewrite Hne.
Qed.

Lemma map_get_update {V} k k2 (f : V -> V) m :
  map_get String.eqb k (map_update k2 f m)
  = if String.eqb k k2 then option_map f (map_get String.eqb k m)
    else map_get String.eqb k m.
Proof.
  unfold map_update. destruct (String.eqb k k2) eqn:Hk.
  - apply String.eqb_eq in Hk. subst k2.
    destruct (map_get String.eqb k m) eqn:Hg; simpl; [| exact Hg].
    apply map_get_set_same, String.eqb_refl.
  - apply String.eqb_neq in Hk.
    destruct (map_get String.eqb k2 m); [now apply map_get_set_other | reflexivity].
Qed.

Lemma set_add_incl id p : incl p (set_add id p).
Proof. intros y Hy. apply set_add_In. now right. Qed.

(** Setting one key of a number map keeps every posting set that the new
    value extends. *)
Lemma map_set_number_grows x x' v (m : list (number * list string)) p :
  (forall s, map_get same_value_zero x' m = Some s -> incl s v) ->
  map_get same_value_zero x m = Some p ->
  exists p', map_get same_value_zero x (map_set same_value_zero x' v m) = Some p'
             /\ incl p p'.
Proof.
  induction m as [| [k w] m IH]; simpl; intros Hv; [discriminate |].
  destruct (same_value_zero x' k) eqn:Hk'; simpl.
  - destruct (same_value_zero x k); intros Hx.
    + injection Hx as <-. exists v. split; [reflexivity | now apply Hv].
    + exists p. split; [exact Hx | apply incl_refl].
  - destruct (same_value_zero x k); intros Hx.
    + exists p. split; [exact Hx | apply incl_refl].
    + now apply IH.
Qed.

Lemma numeric_add_grows x x' id m p :
  map_get same_value_zero x m = Some p ->
  exists p', map_get same_value_zero x (numeric_add x' id m) = Some p' /\ incl p p'.
Proof.
  intros Hx. unfold numeric_add.
  destruct (map_get same_value_zero x' m) as [s |] eqn:Hs.
  - apply map_set_number_grows; [| exact Hx].
    intros s' H. rewrite Hs in H. injection H as <-. apply set_add_incl.
  - apply map_set_number_grows; [| exact Hx]. intros s' H. congruence.
Qed.

Lemma numeric_add_files x id m :
  exists p, map_get same_value_zero x (numeric_add x id m) = Some p /\ In id p.
Proof.
  unfold numeric_add. destruct (map_get same_value_zero x m) as [s |].
  - exists (set_add id s). split; [apply map_get_set_same, same_value_zero_refl |].
    apply set_add_In. now left.
  - exists [id]. split; [apply map_get_set_same, same_value_zero_refl | now left].
Qed.

Section Filing.
Context {E : Env}.

Lemma postings_grow_refl st : postings_grow st st.
Proof.
  split.
  - intros k p H. exists p. split; [exact H | apply incl_refl].
  - intros k m x p H1 H2. exists m, p. repeat split; auto. apply incl_refl.
Qed.

Lemma postings_grow_trans st1 st2 st3 :
  postings_grow st1 st2 -> postings_grow st2 st3 -> postings_grow st1 st3.
Proof.
  intros [A1 A2] [B1 B2]. split.
  - intros k p H. destruct (A1 k p H) as (p1 & H1 & I1).
    destruct (B1 k p1 H1) as (p2 & H2 & I2).
    exists p2. split; [exact H2 | eapply incl_tran; eassumption].
  - intros k m x p Hm Hx. destruct (A2 k m x p Hm Hx) as (m1 & p1 & H1 & G1 & I1).
    destruct (B2 k m1 x p1 H1 G1) as (m2 & p2 & H2 & G2 & I2).
    exists m2, p2. repeat split; auto. eapply incl_tran; eassumption.
Qed.

Lemma postings_grow_index f st : postings_grow st (set_index f st).
Proof.
  split; simpl.
  - intros k p H. exists p. split; [exact H | apply incl_refl].
  - intros k m x p H1 H2. exists m, p. repeat split; auto. apply incl_refl.
Qed.

Lemma postings_grow_boolean k2 id st :
  postings_grow st (set_booleanIndex (map_update k2 (set_add id)) st).
Proof.
  split; simpl.
  - intros k p H. rewrite map_get_update, H.
    destruct (String.eqb k k2); simpl.
    + eexists. split; [reflexivity | apply set_add_incl].
    + exists p. split; [reflexivity | apply incl_refl].
  - intros k m x p H1 H2. exists m, p. repeat split; auto. apply incl_refl.
Qed.

Lemma postings_grow_numeric k2 x' id st :
  postings_grow st (set_numericIndex (map_update k2 (numeric_add x' id)) st).
Proof.
  split; simpl.
  - intros k p H. exists p. split; [exact H | apply incl_refl].
  - intros k m x p H1 H2. rewrite map_get_update, H1.
    destruct (String.eqb k k2); simpl.
    + destruct (numeric_add_grows x x' id m p H2) as (p' & Hp' & Hi). eauto.
    + exists m, p. repeat split; auto. apply incl_refl.
Qed.

(** The insertion walk only ever adds identifiers to the posting sets of the
    boolean and numeric indices. *)
Lemma recursiveTrieInsertion_postings_grow id language doc :
  forall prefix,
    establishes postings_grow (recursiveTrieInsertion id language doc prefix).
Proof.
  induction doc as [| | b | n | s | fields IH] using value_fields_ind;
    intros prefix; try (intros st; apply postings_grow_refl).
  induction IH as [| [key v] rest Hv Hrest IHrest]; intros st.
  - apply postings_grow_refl.
  - simpl in Hv. simpl. unfold bind at 1.
    match goal with
    | |- context [match ?c st with _ => _ end] =>
        assert (Hb : postings_grow st (snd (c st)));
        [| destruct (c st) as [[[] | e] st1]; simpl in Hb]
    end.
    + destruct v as [| | b | n | s | fs]; simpl.
      * apply postings_grow_refl.
      * apply postings_grow_refl.
      * apply postings_grow_boolean.
      * apply postings_grow_numeric.
      * apply (establishes_bind postings_grow postings_grow_trans).
        -- apply (establishes_lift postings_grow postings_grow_refl).
        -- intros tokens.
           apply (establishes_for_of postings_grow postings_grow_refl
                    postings_grow_trans).
           intros token st0. apply postings_grow_index.
      * apply Hv.
    + eapply postings_grow_trans; [exact Hb | apply (IHrest st1)].
    + exact Hb.
Qed.

Lemma recursiveTrieInsertion_cons_Ok id language k v rest prefix st st' :
  recursiveTrieInsertion id language (VObj ((k, v) :: rest)) prefix st = (Ok tt, st') ->
  exists st1,
    recursiveTrieInsertion id language (VObj [(k, v)]) prefix st = (Ok tt, st1)
    /\ recursiveTrieInsertion id language (VObj rest) prefix st1 = (Ok tt, st').
Proof.
  assert (Hcons :
            recursiveTrieInsertion id language (VObj ((k, v) :: rest)) prefix st
            = match recursiveTrieInsertion id language (VObj [(k, v)]) prefix st with
              | (Ok _, st1) => recursiveTrieInsertion id language (VObj rest) prefix st1
              | (Err e, st1) => (Err e, st1)
              end).
  { simpl. unfold bind, ret.
    match goal with
    | |- match ?X with _ => _ end = _ => destruct X as [[[] | e] st1]; reflexivity
    end. }
  rewrite Hcons.
  destruct (recursiveTrieInsertion id language (VObj [(k, v)]) prefix st)
    as [[[] | e] st1]; [| discriminate].
  intros H. exists st1. split; [reflexivity | exact H].
Qed.

(** After a walk that returns, a top-level boolean field of the document has
    filed the identifier under its key, if the boolean index has that key. *)
Lemma recursiveTrieInsertion_files_boolean id language fields key b :
  In (key, VBool b) fields ->
  forall prefix st st',
    recursiveTrieInsertion id language (VObj fields) prefix st = (Ok tt, st') ->
    In ((prefix ++ key) ++ "_" ++ bool_to_string b) (map fst (booleanIndex st)) ->
    exists p, map_get String.eqb ((prefix ++ key) ++ "_" ++ bool_to_string b)
                      (booleanIndex st') = Some p
              /\ In id p.
Proof.
  induction fields as [| [k v] rest IH]; intros Hin prefix st st' Hrun Hkey;
    [destruct Hin |].
  apply recursiveTrieInsertion_cons_Ok in Hrun. destruct Hrun as (st1 & Hhead & Hrest).
  destruct Hin as [Heq | Hin].
  - injection Heq as -> ->.
    simpl in Hhead. unfold bind, modify, ret in Hhead. injection Hhead as <-.
    destruct (map_get_In_Some _ _ Hkey) as [p0 Hp0].
    pose proof (recursiveTrieInsertion_postings_grow id language (VObj rest) prefix
                  (set_booleanIndex
                     (map_update ((prefix ++ key) ++ "_" ++ bool_to_string b)
                                 (set_add id)) st)) as Hgrow.
    change (String "_" (bool_to_string b)) with ("_" ++ bool_to_string b) in Hrest.
    rewrite Hrest in Hgrow. destruct Hgrow as [Hg _]. simpl snd in Hg.
    destruct (Hg ((prefix ++ key) ++ "_" ++ bool_to_string b) (set_add id p0))
      as (p' & Hp' & Hi).
    { cbn [booleanIndex set_booleanIndex].
      rewrite map_get_update, String.eqb_refl, Hp0. reflexivity. }
    exists p'. split; [exact Hp' |]. apply Hi, set_add_In. now left.
  - apply (IH Hin prefix st1 st' Hrest).
    pose proof (recursiveTrieInsertion_same_tables id language (VObj [(k, v)])
                  prefix st) as [(_ & _ & _ & _ & Hb) _].
    rewrite Hhead in Hb. simpl in Hb. now rewrite Hb.
Qed.

(** The same for a top-level number field and the numeric index of its key. *)
Lemma recursiveTrieInsertion_files_number id language fields key x :
  In (key, VNum x) fields ->
  forall prefix st st',
    recursiveTrieInsertion id language (VObj fields) prefix st = (Ok tt, st') ->
    In (prefix ++ key) (map fst (numericIndex st)) ->
    exists m p, map_get String.eqb (prefix ++ key) (numericIndex st') = Some m
                /\ map_get same_value_zero x m = Some p
                /\ In id p.
Proof.
  induction fields as [| [k v] rest IH]; intros Hin prefix st st' Hrun Hkey;
    [destruct Hin |].
  apply recursiveTrieInsertion_cons_Ok in Hrun. destruct Hrun as (st1 & Hhead & Hrest).
  destruct Hin as [Heq | Hin].
  - injection Heq as -> ->.
    simpl in Hhead. unfold bind, modify, ret in Hhead. injection Hhead as <-.
    destruct (map_get_In_Some _ _ Hkey) as [m0 Hm0].
    destruct (numeric_add_files x id m0) as (p0 & Hp0 & Hin0).
    pose proof (recursiveTrieInsertion_postings_grow id language (VObj rest) prefix
                  (set_numericIndex
                     (map_update (prefix ++ key) (numeric_add x id)) st)) as Hgrow.
    rewrite Hrest in Hgrow. destruct Hgrow as [_ Hg]. simpl snd in Hg.
    destruct (Hg (prefix ++ key) (numeric_add x id m0) x p0)
      as (m' & p' & Hm' & Hp' & Hi).
    { cbn [numericIndex set_numericIndex].
      rewrite map_get_update, String.eqb_refl, Hm0. reflexivity. }
    { exact Hp0. }
    exists m', p'. repeat split; auto.
  - apply (IH Hin prefix st1 st' Hrest).
    pose proof (recursiveTrieInsertion_same_tables id language (VObj [(k, v)])
                  prefix st) as [(_ & _ & _ & Hn & _) _].
    rewrite Hhead in Hn. simpl in Hn. now rewrite Hn.
Qed.
End Filing.

(** A key equal to [a] in the sense of the map compares with every number
    as [a] does. *)
Lemma same_value_zero_congr a b c :
  same_value_zero a b = true -> same_value_zero b c = same_value_zero a c.
Proof.
  destruct a as [| na | m1 e1], b as [| nb | m2 e2]; intros H;
    try discriminate H; try reflexivity;
    try (destruct na; discriminate H); try (destruct nb; discriminate H).
  - destruct na, nb; try discriminate H; reflexivity.
  - revert H. unfold same_value_zero, num_eq. simpl.
    destruct (Z.compare_spec (m1 * 10 ^ Z.of_nat e2) (m2 * 10 ^ Z.of_nat e1))
      as [Heq | |]; try discriminate.
    intros _. destruct c as [| nc | m3 e3]; try reflexivity. simpl.
    pose proof (pow10_pos e1) as P1. pose proof (pow10_pos e2) as P2.
    remember (10 ^ Z.of_nat e1) as A1 eqn:EA1. clear EA1.
    remember (10 ^ Z.of_nat e2) as A2 eqn:EA2. clear EA2.
    remember (10 ^ Z.of_nat e3) as A3 eqn:EA3. clear EA3.
    assert (Hk : (m2 * A3 - m3 * A2) * A1 = (m1 * A3 - m3 * A1) * A2).
    { rewrite !Z.mul_sub_distr_r.
      replace (m2 * A3 * A1) with (m2 * A1 * A3) by ring.
      rewrite <- Heq. ring. }
    destruct (m2 * A3 ?= m3 * A2) eqn:C1;
      destruct (m1 * A3 ?= m3 * A1) eqn:C2; try reflexivity; exfalso;
      try apply (proj1 (Z.compare_eq_iff _ _)) in C1;
      try apply (proj1 (Z.compare_gt_iff _ _)) in C1;
      try apply (proj1 (Z.compare_eq_iff _ _)) in C2;
      try apply (proj1 (Z.compare_gt_iff _ _)) in C2;
      try apply (proj1 (Z.compare_lt_iff _ _)) in C1;
      try apply (proj1 (Z.compare_lt_iff _ _)) in C2;
      remember (m2 * A3 - m3 * A2) as X eqn:EX;
      remember (m1 * A3 - m3 * A1) as Y eqn:EY;
      assert (HX : X = 0 \/ X < 0 \/ 0 < X) by lia;
      assert (HY : Y = 0 \/ Y < 0 \/ 0 < Y) by lia;
      assert (X = 0 -> False \/ Y = 0) by (intros ->; right; nia);
      assert (X < 0 -> Y < 0) by nia;
      assert (0 < X -> 0 < Y) by nia;
      lia.
Qed.

Lemma map_get_same_value_zero_congr {V} a b (m : list (number * V)) :
  same_value_zero a b = true ->
  map_get same_value_zero b m = map_get same_value_zero a m.
Proof.
  intros H. induction m as [| [k v] m IH]; simpl; [reflexivity |].
  now rewrite (same_value_zero_congr a b k H), IH.
Qed.

Lemma map_get_same_value_zero_key {V} x (m : list (number * V)) p :
  map_get same_value_zero x m = Some p ->
  exists k, In k (map fst m) /\ same_value_zero x k = true.
Proof.
  induction m as [| [k v] m IH]; simpl; [discriminate |].
  destruct (same_value_zero x k) eqn:Hk.
  - intros _. exists k. auto.
  - intros H. destruct (IH H) as (k' & Hin & Hk'). eauto.
Qed.

Lemma num_eq_sym_of_same_value_zero x k :
  num_eq x x = true -> same_value_zero x k = true -> num_eq k x = true.
Proof.
  intros Hx Hk.
  assert (H : same_value_zero k x = same_value_zero x x)
    by (apply same_value_zero_congr, Hk).
  rewrite same_value_zero_refl in H.
  destruct x as [| nx | mx ex]; [discriminate | |];
    destruct k as [| nk | mk ek]; try discriminate; exact H.
Qed.

Section FindingAgain.
Context {E : Env}.

Lemma recursiveCheck_leaf fields schema k v :
  recursiveCheck (VObj fields) schema = true ->
  In (k, v) fields -> typeof v <> "object" ->
  get schema k = VStr (typeof v).
Proof.
  induction fields as [| [key w] rest IH]; intros Hcheck Hin Hv; [destruct Hin |].
  change (recursiveCheck (VObj ((key, w) :: rest)) schema)
    with (if negb (has_key schema key) then false
          else if String.eqb (typeof w) "object"
               then recursiveCheck (VObj rest) schema
               else if negb (is_str (get schema key) (typeof w)) then false
                    else recursiveCheck (VObj rest) schema) in Hcheck.
  destruct (has_key schema key); [| discriminate]. simpl in Hcheck.
  destruct Hin as [Heq | Hin].
  - injection Heq as -> ->. apply String.eqb_neq in Hv. rewrite Hv in Hcheck.
    destruct (is_str (get schema k) (typeof v)) eqn:Hs; [| discriminate].
    now apply is_str_true.
  - apply IH; auto.
    destruct (String.eqb (typeof w) "object"); [exact Hcheck |].
    destruct (is_str (get schema key) (typeof w)); [exact Hcheck | discriminate].
Qed.

Lemma insert_Ok_inv nanoid doc language st i st' :
  insert nanoid doc language st = (Ok i, st') ->
  checkInsertDocSchema st doc = true
  /\ recursiveTrieInsertion nanoid (search_language st language) doc ""
       (set_docs (map_set String.eqb nanoid doc) st) = (Ok tt, st').
Proof.
  unfold insert, bind, this. fold (search_language st language).
  destruct (includes SUPPORTED_LANGUAGES _); simpl; [| discriminate].
  destruct (checkInsertDocSchema st doc); simpl; [| discriminate].
  unfold queue_push, _insert, bind, modify.
  destruct (recursiveTrieInsertion _ _ _ _ _) as [[[] | e] st1]; [| discriminate].
  unfold ret. intros H. injection H as _ <-. auto.
Qed.

(** X9.  A document that [insert] accepted and that has the boolean [b] in
    its field [key] is admitted by the where clause [{ key: b }]: the clause
    is normalised to the lookup [key_b], and the filter set of that lookup
    contains the identifier of the document. *)
Theorem inserted_boolean_is_admitted nanoid fields key b language st i st' :
  insert nanoid (VObj fields) language st = (Ok i, st') ->
  In (key, VBool b) fields ->
  In (key ++ "_" ++ bool_to_string b) (map fst (booleanIndex st)) ->
  getNonSearchableIndices (VObj [(key, VBool b)]) (schema st') ""
  = Ok ([key ++ "_" ++ bool_to_string b], [])
  /\ exists F,
      getDocumentIDsFromWhere st' [key ++ "_" ++ bool_to_string b] [] = Some F
      /\ In nanoid F.
Proof.
  intros Hins Hin Hkey.
  destruct (insert_Ok_inv _ _ _ _ _ _ Hins) as [Hcheck Hrun].
  assert (Hschema : schema st' = schema st).
  { pose proof (recursiveTrieInsertion_same_tables nanoid
                  (search_language st language) (VObj fields) ""
                  (set_docs (map_set String.eqb nanoid (VObj fields)) st))
      as [(_ & Hs & _) _].
    rewrite Hrun in Hs. exact Hs. }
  assert (Hsk : get (schema st) key = VStr "boolean").
  { apply (recursiveCheck_leaf fields (schema st) key (VBool b) Hcheck Hin).
    discriminate. }
  split.
  - rewrite Hschema. rewrite getNonSearchableIndices_cons.
    unfold where_property, get_checked.
    destruct (schema st); try discriminate. rewrite Hsk. reflexivity.
  - destruct (recursiveTrieInsertion_files_boolean nanoid _ fields key b Hin
                "" _ st' Hrun Hkey) as (p & Hp & Hid).
    eexists. split; [reflexivity |].
    apply collect_boolean_fold_In. right. exists (key ++ "_" ++ bool_to_string b), p.
    repeat split; auto. now left.
Qed.
End FindingAgain.

Section FindingNumbers.
Context {E : Env}.

(** X10.  A document that [insert] accepted and that has the number [x] in
    its field [key] is admitted by the where clause [{ key: { "=": x } }],
    provided [x] is not NaN and its printed form has no dot and reads back
    as [x]: the clause is normalised to the name [key.=.x], and the filter
    set of that name contains the identifier of the document. *)
Theorem inserted_number_is_admitted nanoid fields key x language st i st' :
  insert nanoid (VObj fields) language st = (Ok i, st') ->
  In (key, VNum x) fields ->
  In key (map fst (numericIndex st)) ->
  no_dot (number_to_string x) = true ->
  Number (number_to_string x) = x ->
  num_eq x x = true ->
  getNonSearchableIndices (VObj [(key, VObj [("=", VNum x)])]) (schema st') ""
  = Ok ([], [key ++ "." ++ "=" ++ "." ++ number_to_string x])
  /\ exists F,
      getDocumentIDsFromWhere st' [] [key ++ "." ++ "=" ++ "." ++ number_to_string x]
      = Some F
      /\ In nanoid F.
Proof.
  intros Hins Hin Hkey Hdot Hread Hx.
  destruct (insert_Ok_inv _ _ _ _ _ _ Hins) as [Hcheck Hrun].
  assert (Hschema : schema st' = schema st).
  { pose proof (recursiveTrieInsertion_same_tables nanoid
                  (search_language st language) (VObj fields) ""
                  (set_docs (map_set String.eqb nanoid (VObj fields)) st))
      as [(_ & Hs & _) _].
    rewrite Hrun in Hs. exact Hs. }
  assert (Hsk : get (schema st) key = VStr "number").
  { apply (recursiveCheck_leaf fields (schema st) key (VNum x) Hcheck Hin).
    discriminate. }
  split.
  - rewrite Hschema. rewrite getNonSearchableIndices_cons.
    unfold where_property, get_checked.
    destruct (schema st); try discriminate. rewrite Hsk. reflexivity.
  - destruct (recursiveTrieInsertion_files_number nanoid _ fields key x Hin
                "" _ st' Hrun Hkey) as (m & p & Hm & Hp & Hid).
    eexists. split; [reflexivity |].
    cbn [fold_left].
    apply (numeric_filter_sound_without_dot st' key "=" x m);
      [reflexivity | exact Hdot | exact Hread | exact Hm |].
    destruct (map_get_same_value_zero_key x m p Hp) as (k & Hk & Hxk).
    exists k, p. split; [exact Hk |]. split; [| split; [| exact Hid]].
    + simpl. apply num_eq_sym_of_same_value_zero; assumption.
    + rewrite (map_get_same_value_zero_congr x k m Hxk). exact Hp.
Qed.
End FindingNumbers.

(** ** Numbers of any value in a document *)

Section NumberLeaves.
Context {E : Env}.

Lemma typeof_same_but_numbers a b :
  same_but_numbers a b = true -> typeof a = typeof b.
Proof. destruct a, b; try discriminate; reflexivity. Qed.

Lemma same_but_numbers_cons ka va ra kb vb rb :
  same_but_numbers (VObj ((ka, va) :: ra)) (VObj ((kb, vb) :: rb))
  = String.eqb ka kb && same_but_numbers va vb
    && same_but_numbers (VObj ra) (VObj rb).
Proof. reflexivity. Qed.

Lemma recursiveCheck_cons key w rest schema :
  recursiveCheck (VObj ((key, w) :: rest)) schema
  = if negb (has_key schema key) then false
    else if String.eqb (typeof w) "object" then recursiveCheck (VObj rest) schema
         else if negb (is_str (get schema key) (typeof w)) then false
              else recursiveCheck (VObj rest) schema.
Proof. reflexivity. Qed.

(** The check reads the type of a leaf, never its value. *)
Lemma recursiveCheck_same_but_numbers a b schema :
  same_but_numbers a b = true -> recursiveCheck a schema = recursiveCheck b schema.
Proof.
  destruct a as [| | x | x | x | fa], b as [| | y | y | y | fb];
    try discriminate; try reflexivity.
  revert fb. induction fa as [| [ka va] ra IH]; intros [| [kb vb] rb] H;
    try discriminate; [reflexivity |].
  rewrite same_but_numbers_cons in H.
  apply andb_true_iff in H. destruct H as [H Hr].
  apply andb_true_iff in H. destruct H as [Hk Hv].
  apply String.eqb_eq in Hk. subst kb.
  rewrite !recursiveCheck_cons, (typeof_same_but_numbers _ _ Hv), (IH rb Hr).
  reflexivity.
Qed.

Lemma number_leaves_cons key v rest prefix :
  number_leaves (VObj ((key, v) :: rest)) prefix
  = (match v with
     | VObj _ => number_leaves v ((prefix ++ key) ++ ".")%string
     | VNum x => [((prefix ++ key)%string, x)]
     | _ => []
     end ++ number_leaves (VObj rest) prefix)%list.
Proof. reflexivity. Qed.

Lemma recursiveTrieInsertion_nested id language key fs prefix st :
  recursiveTrieInsertion id language (VObj [(key, VObj fs)]) prefix st
  = match recursiveTrieInsertion id language (VObj fs) ((prefix ++ key) ++ ".") st with
    | (Ok _, st1) => (Ok tt, st1)
    | (Err e, st1) => (Err e, st1)
    end.
Proof.
  change (recursiveTrieInsertion id language (VObj [(key, VObj fs)]) prefix st)
    with (bind (recursiveTrieInsertion id language (VObj fs) ((prefix ++ key) ++ "."))
               (fun _ => ret tt) st).
  unfold bind, ret.
  destruct (recursiveTrieInsertion id language (VObj fs) ((prefix ++ key) ++ ".") st)
    as [[[] | e] st1]; reflexivity.
Qed.

(** After a walk that returns, every number of the document, at any depth,
    has filed the identifier under its value in the numeric index of its
    path, if there is one. *)
Lemma recursiveTrieInsertion_files_numbers id language doc :
  forall prefix st st' p x,
    recursiveTrieInsertion id language doc prefix st = (Ok tt, st') ->
    In (p, x) (number_leaves doc prefix) ->
    In p (map fst (numericIndex st)) ->
    exists m ids, map_get String.eqb p (numericIndex st') = Some m
                  /\ map_get same_value_zero x m = Some ids
                  /\ In id ids.
Proof.
  induction doc as [| | b | n | s | fields IH] using value_fields_ind;
    intros prefix st st' p x Hrun Hin Hkey; try (now destruct Hin).
  revert st Hrun Hin Hkey.
  induction IH as [| [key v] rest Hv Hrest IHrest]; intros st Hrun Hin Hkey;
    [destruct Hin |].
  apply recursiveTrieInsertion_cons_Ok in Hrun.
  destruct Hrun as (st1 & Hhead & Hrun).
  rewrite number_leaves_cons in Hin. apply in_app_iff in Hin.
  destruct Hin as [Hin | Hin].
  - assert (Hfiled : exists m ids,
               map_get String.eqb p (numericIndex st1) = Some m
               /\ map_get same_value_zero x m = Some ids /\ In id ids).
    { destruct v as [| | b | n | s | fs]; try (now destruct Hin).
      - destruct Hin as [Heq | []]. injection Heq as <- <-.
        simpl in Hhead. unfold bind, modify, ret in Hhead. injection Hhead as <-.
        destruct (map_get_In_Some _ _ Hkey) as [m0 Hm0].
        destruct (numeric_add_files n id m0) as (p0 & Hp0 & Hin0).
        exists (numeric_add n id m0), p0.
        cbn [numericIndex set_numericIndex].
        rewrite map_get_update, String.eqb_refl, Hm0. auto.
      - cbn [snd] in Hv.
        apply (Hv ((prefix ++ key) ++ ".") st st1 p x); [| exact Hin | exact Hkey].
        rewrite recursiveTrieInsertion_nested in Hhead.
        destruct (recursiveTrieInsertion id language (VObj fs)
                    ((prefix ++ key) ++ ".") st) as [[[] | e] st2];
          [| discriminate].
        now injection Hhead as <-. }
    destruct Hfiled as (m & ids & Hm & Hids & Hid).
    pose proof (recursiveTrieInsertion_postings_grow id language (VObj rest) prefix st1)
      as Hgrow.
    rewrite Hrun in Hgrow. destruct Hgrow as [_ Hg]. simpl snd in Hg.
    destruct (Hg p m x ids Hm Hids) as (m' & ids' & Hm' & Hids' & Hincl).
    exists m', ids'. repeat split; auto.
  - apply (IHrest st1 Hrun Hin).
    pose proof (recursiveTrieInsertion_same_tables id language (VObj [(key, v)])
                  prefix st) as [(_ & _ & _ & Hn & _) _].
    rewrite Hhead in Hn. simpl in Hn. now rewrite Hn.
Qed.

(** C6 (amended).  [insert] never looks at the value of a number.  The
    schema check gives the same answer on two documents that differ only
    in the values of their numbers, NaN and the infinities included.  When
    [insert] returns, every number of the document, at any depth and of any
    value, keys a posting set that contains the identifier, in the numeric
    index of its flat path when the engine has one.  And the document
    [{ key: x }] is accepted whatever the number [x], on an engine whose
    schema declares [key] a number and that has the numeric index of [key]. *)
Theorem insert_accepts_any_number (st : Lyra) nanoid language :
  (forall doc doc',
      same_but_numbers doc doc' = true ->
      checkInsertDocSchema st doc = checkInsertDocSchema st doc')
  /\ (forall doc i st' p x,
         insert nanoid doc language st = (Ok i, st') ->
         In (p, x) (number_leaves doc "") ->
         In p (map fst (numericIndex st)) ->
         exists current' ids,
           map_get String.eqb p (numericIndex st') = Some current'
           /\ map_get same_value_zero x current' = Some ids
           /\ In nanoid ids)
  /\ (forall key x current,
         get (schema st) key = VStr "number" ->
         includes SUPPORTED_LANGUAGES (search_language st language) = true ->
         map_get String.eqb key (numericIndex st) = Some current ->
         exists st' current' ids,
           insert nanoid (VObj [(key, VNum x)]) language st = (Ok nanoid, st')
           /\ map_get String.eqb key (numericIndex st') = Some current'
           /\ map_get same_value_zero x current' = Some ids
           /\ In nanoid ids).
Proof.
  split; [| split].
  - intros doc doc' H. apply recursiveCheck_same_but_numbers, H.
  - intros doc i st' p x Hins Hin Hkey.
    destruct (insert_Ok_inv _ _ _ _ _ _ Hins) as [_ Hrun].
    apply (recursiveTrieInsertion_files_numbers nanoid _ doc "" _ st' p x Hrun Hin).
    exact Hkey.
  - intros key x current Hs Hl Hc.
    unfold insert, bind, this. fold (search_language st language).
    rewrite Hl. unfold checkInsertDocSchema. simpl.
    assert (Hk : has_key (schema st) key = true).
    { unfold has_key, get in *. destruct (schema st); try discriminate.
      destruct (assoc key fields); [reflexivity | discriminate]. }
    rewrite Hk, Hs. simpl.
    unfold queue_push, _insert, bind, modify, ret. simpl.
    unfold map_update.
    destruct (map_get same_value_zero x current) as [s |] eqn:Hx.
    + eexists.
      exists (map_set same_value_zero x (set_add nanoid s) current), (set_add nanoid s).
      split; [reflexivity |]. simpl. rewrite Hc. unfold numeric_add. rewrite Hx.
      split; [apply map_get_set_same, String.eqb_refl |].
      split; [apply map_get_set_same, same_value_zero_refl |].
      apply set_add_In. now left.
    + eexists. exists (map_set same_value_zero x [nanoid] current), [nanoid].
      split; [reflexivity |]. simpl. rewrite Hc. unfold numeric_add. rewrite Hx.
      split; [apply map_get_set_same, String.eqb_refl |].
      split; [apply map_get_set_same, same_value_zero_refl |].
      now left.
Qed.
End NumberLeaves.

Lemma insert_accepts_any_number_witness :
  checkInsertDocSchema (Sample.engine Sample.priceSchema)
                       (VObj [("price", VNum (Finite 1 0))])
  = checkInsertDocSchema (Sample.engine Sample.priceSchema) Sample.nanPrice
  /\ (exists current' ids,
         map_get String.eqb "price"
                 (numericIndex (Sample.run (insert "A" Sample.nanPrice None)
                                           (Sample.engine Sample.priceSchema)))
         = Some current'
         /\ map_get same_value_zero NaN current' = Some ids
         /\ In "A" ids)
  /\ (exists st' current' ids,
         insert "A" (VObj [("price", VNum (Infinity false))]) None
                (Sample.engine Sample.priceSchema) = (Ok "A", st')
         /\ map_get String.eqb "price" (numericIndex st') = Some current'
         /\ map_get same_value_zero (Infinity false) current' = Some ids
         /\ In "A" ids).
Proof.
  destruct (insert_accepts_any_number (E := Reference.env)
              (Sample.engine Sample.priceSchema) "A" None) as (H1 & H2 & H3).
  split; [| split].
  - apply H1. reflexivity.
  - apply (H2 Sample.nanPrice "A" _ "price" NaN).
    + vm_compute. reflexivity.
    + left. reflexivity.
    + vm_compute. auto.
  - apply (H3 "price" (Infinity false) []); vm_compute; reflexivity.
Defined.

(** ** The order of an insertion *)

Section InsertionOrder.
Context {E : Env}.


End InsertionOrder.



(** ** What a search returns *)

Lemma array_set_In {A} (l : list (option A)) n x h :
  In (Some h) (array_set l n x) -> h = x \/ In (Some h) l.
Proof.
  revert l. induction n as [| n IH]; intros l; destruct l as [| y l]; simpl.
  - intros [H | []]. left. congruence.
  - intros [H | H]; [left; congruence | auto].
  - intros [H | H]; [discriminate |]. apply IH in H. destruct H as [H | []]. auto.
  - intros [H | H]; [auto |]. apply IH in H. tauto.
Qed.

Section SearchResults.
Context {E : Env}.

Lemma search_run st params language tokens indices ns r :
  tokenize (VStr (term params)) (Some (search_language st language)) = Ok tokens ->
  getIndices st (properties params) = Ok indices ->
  getNonSearchableIndices (where_ params) (schema st) "" = Ok ns ->
  search st params language = Ok r ->
  r = mkSearchResult (totalResults (search_cursor st params tokens indices ns))
                     (results (search_cursor st params tokens indices ns)).
Proof.
  intros Ht Hi Hw. unfold search. fold (search_language st language).
  fold (search_limit params).
  rewrite Ht, Hi, Hw. destruct ns as [boolIndices numericIndices]. cbn [rbind].
  destruct (Array_from_length (search_limit params)) as [slots |] eqn:Hs;
    cbn [rbind]; [| discriminate].
  apply Array_from_length_Ok in Hs. destruct Hs as [-> _].
  intros H. injection H as <-. reflexivity.
Qed.

Lemma candidates_In st exact tolerance fromWhere token index_ id :
  In id (candidates st exact tolerance fromWhere token index_) ->
  In id (getDocumentIDsFromSearch st index_ token exact tolerance)
  /\ (forall F, fromWhere = Some F -> In id F).
Proof.
  unfold candidates. destruct fromWhere as [F |]; simpl.
  - rewrite filter_In, set_has_In. intros [H1 H2]. split; [exact H1 |].
    intros F' H. now injection H as <-.
  - intros H. split; [exact H | discriminate].
Qed.

Section HitsSatisfy.
Variable st : Lyra.
Variable Q : RetrievedDoc -> Prop.

Lemma emit_hits_satisfy limit offset documentIDs c :
  (forall d, In d documentIDs ->
             Q (mkRetrievedDoc d (map_get String.eqb d (docs st)))) ->
  hits_satisfy Q (results c) ->
  hits_satisfy Q (results (emit st limit offset documentIDs c)).
Proof.
  revert c. induction documentIDs as [| d rest IH]; intros c Hids Hc; simpl.
  - exact Hc.
  - destruct (num_lt (Finite (j c) 0) offset).
    + apply IH; [intros d' Hd'; apply Hids; now right | exact Hc].
    + destruct (num_ge (Finite (i c) 0) limit); [exact Hc |].
      apply IH; [intros d' Hd'; apply Hids; now right |].
      simpl. intros h Hh. apply array_set_In in Hh.
      destruct Hh as [-> | Hh]; [apply Hids; now left | now apply Hc].
Qed.

Lemma search_indices_hits_satisfy limit offset exact tolerance fromWhere token
      indices c :
  (forall index_ d, In index_ indices ->
                    In d (candidates st exact tolerance fromWhere token index_) ->
                    Q (mkRetrievedDoc d (map_get String.eqb d (docs st)))) ->
  hits_satisfy Q (results c) ->
  hits_satisfy Q (results (search_indices st limit offset exact tolerance fromWhere
                                          token indices c)).
Proof.
  revert c. induction indices as [| index_ rest IH]; intros c HQ Hc; simpl.
  - exact Hc.
  - fold (candidates st exact tolerance fromWhere token index_).
    destruct (List.length _ =? 0)%nat.
    + apply IH; [intros ix d Hix; apply HQ; now right | exact Hc].
    + simpl. destruct (num_ge (Finite (i c) 0) limit); [exact Hc |].
      apply IH; [intros ix d Hix; apply HQ; now right |].
      apply emit_hits_satisfy; [| exact Hc].
      intros d Hd. apply setSubtraction_In in Hd. destruct Hd as [Hd _].
      apply (HQ index_ d); [now left | exact Hd].
Qed.

Lemma search_tokens_hits_satisfy limit offset exact tolerance fromWhere indices
      tokens c :
  (forall token index_ d,
      In token tokens -> In index_ indices ->
      In d (candidates st exact tolerance fromWhere token index_) ->
      Q (mkRetrievedDoc d (map_get String.eqb d (docs st)))) ->
  hits_satisfy Q (results c) ->
  hits_satisfy Q (results (search_tokens st limit offset exact tolerance fromWhere
                                         indices tokens c)).
Proof.
  unfold search_tokens. revert c.
  induction tokens as [| token rest IH]; intros c HQ Hc; simpl.
  - exact Hc.
  - apply IH; [intros t ix d Ht; apply HQ; now right |].
    apply search_indices_hits_satisfy; [| exact Hc].
    intros ix d Hix. apply HQ; [now left | exact Hix].
Qed.
End HitsSatisfy.

(** X11.  Every hit of a search is a document that the text index of one of
    the selected properties returns for one of the tokens of the term, that
    the where clause admits when it constrains anything, and that is returned
    with the entry the document table has for its identifier. *)
Theorem search_hits_sound st params language tokens indices ns r :
  tokenize (VStr (term params)) (Some (search_language st language)) = Ok tokens ->
  getIndices st (properties params) = Ok indices ->
  getNonSearchableIndices (where_ params) (schema st) "" = Ok ns ->
  search st params language = Ok r ->
  forall h, In (Some h) (hits r) ->
    fullDoc h = map_get String.eqb (id h) (docs st)
    /\ (exists token index_,
           In token tokens /\ In index_ indices
           /\ In (id h) (getDocumentIDsFromSearch st index_ token
                           (search_exact params) (tolerance params)))
    /\ (forall F, getDocumentIDsFromWhere st (fst ns) (snd ns) = Some F ->
                  In (id h) F).
Proof.
  intros Ht Hi Hw Hr. rewrite (search_run _ _ _ _ _ _ _ Ht Hi Hw Hr).
  simpl hits. unfold search_cursor.
  apply (search_tokens_hits_satisfy st
           (fun h => fullDoc h = map_get String.eqb (id h) (docs st)
                     /\ (exists token index_,
                            In token tokens /\ In index_ indices
                            /\ In (id h) (getDocumentIDsFromSearch st index_ token
                                            (search_exact params) (tolerance params)))
                     /\ (forall F, getDocumentIDsFromWhere st (fst ns) (snd ns) = Some F ->
                                   In (id h) F))).
  - intros token index_ d Htok Hix Hd. apply candidates_In in Hd.
    destruct Hd as [H1 H2]. simpl. split; [reflexivity |]. split; [| exact H2].
    exists token, index_. auto.
  - simpl. intros h Hh. apply repeat_spec in Hh. discriminate.
Qed.
End SearchResults.

Section SearchCount.
Context {E : Env}.

(** Emitting from a set moves [i] and [j] forward, together by at most the
    size of the set, and leaves the count alone. *)
Lemma emit_progress st limit offset documentIDs c :
  totalResults (emit st limit offset documentIDs c) = totalResults c
  /\ i c <= i (emit st limit offset documentIDs c)
  /\ j c <= j (emit st limit offset documentIDs c)
  /\ i (emit st limit offset documentIDs c) + j (emit st limit offset documentIDs c)
     <= i c + j c + Z.of_nat (List.length documentIDs).
Proof.
  revert c. induction documentIDs as [| d rest IH]; intros c.
  - simpl. lia.
  - cbn [emit]. destruct (num_lt (Finite (j c) 0) offset).
    + match goal with |- context [emit st limit offset rest ?c1] =>
        destruct (IH c1) as (H1 & H2 & H3 & H4) end.
      simpl in *. rewrite H1. cbn [List.length]. lia.
    + destruct (num_ge (Finite (i c) 0) limit).
      * cbn [List.length]. lia.
      * match goal with |- context [emit st limit offset rest ?c1] =>
          destruct (IH c1) as (H1 & H2 & H3 & H4) end.
        simpl in *. rewrite H1. cbn [List.length]. lia.
Qed.

Lemma search_indices_counted st limit offset exact tolerance fromWhere token indices c :
  0 <= i c -> 0 <= j c -> i c + j c <= totalResults c ->
  let c' := search_indices st limit offset exact tolerance fromWhere token indices c in
  0 <= i c' /\ 0 <= j c' /\ i c' + j c' <= totalResults c'.
Proof.
  revert c. induction indices as [| index_ rest IH]; intros c Hi Hj Hc; simpl.
  - auto.
  - set (ids := setSubtraction _ _).
    destruct (List.length ids =? 0)%nat; [now apply IH |].
    simpl. destruct (num_ge (Finite (i c) 0) limit); [simpl; lia |].
    match goal with |- context [emit st limit offset ids ?c1] =>
      destruct (emit_progress st limit offset ids c1) as (H1 & H2 & H3 & H4) end.
    simpl in *. apply IH; lia.
Qed.

Lemma search_tokens_counted st limit offset exact tolerance fromWhere indices tokens c :
  0 <= i c -> 0 <= j c -> i c + j c <= totalResults c ->
  let c' := search_tokens st limit offset exact tolerance fromWhere indices tokens c in
  0 <= i c' /\ 0 <= j c' /\ i c' + j c' <= totalResults c'.
Proof.
  unfold search_tokens. revert c.
  induction tokens as [| token rest IH]; intros c Hi Hj Hc; simpl.
  - auto.
  - destruct (search_indices_counted st limit offset exact tolerance fromWhere
                token indices c Hi Hj Hc) as (H1 & H2 & H3).
    now apply IH.
Qed.

(** X12.  The count of a search is at least the number of documents among
    its hits. *)
Theorem search_count_covers_hits st params language r :
  search st params language = Ok r ->
  Z.of_nat (List.length (hit_ids (hits r))) <= count r.
Proof.
  intros Hr.
  destruct (tokenize (VStr (term params)) (Some (search_language st language)))
    as [tokens |] eqn:Ht;
    [| unfold search in Hr; fold (search_language st language) in Hr;
       rewrite Ht in Hr; discriminate].
  destruct (getIndices st (properties params)) as [indices |] eqn:Hi;
    [| unfold search in Hr; fold (search_language st language) in Hr;
       rewrite Ht, Hi in Hr; discriminate].
  destruct (getNonSearchableIndices (where_ params) (schema st) "") as [ns |] eqn:Hw;
    [| unfold search in Hr; fold (search_language st language) in Hr;
       rewrite Ht, Hi, Hw in Hr; discriminate].
  rewrite (search_run _ _ _ _ _ _ _ Ht Hi Hw Hr).
  cbn [hits count]. unfold search_cursor.
  set (slots := Z.to_nat (ToLength (search_limit params))).
  set (c0 := mkCursor [] (repeat None slots) 0 0 0).
  pose proof (search_tokens_inv st (search_limit params) (search_offset params)
                slots (search_exact params) (tolerance params)
                (getDocumentIDsFromWhere st (fst ns) (snd ns)) indices tokens c0
                (cursor_inv_init _ _)) as (hs & H1 & H2 & _).
  destruct (search_tokens_counted st (search_limit params) (search_offset params)
              (search_exact params) (tolerance params)
              (getDocumentIDsFromWhere st (fst ns) (snd ns)) indices tokens c0)
    as (_ & Hj & Hc); try (simpl; lia).
  rewrite H1, hit_ids_holes, length_map. lia.
Qed.
End SearchCount.

Section SearchPaging.
Context {E : Env}.

Lemma setSubtraction_nil a : setSubtraction a [] = a.
Proof.
  unfold setSubtraction. induction a as [| x a IH]; simpl; [reflexivity |].
  f_equal. exact IH.
Qed.

(** Emitting a set into an array whose first slots are filled, when the
    values of [limit] and [offset] are the integers [l] and [o]: the skipped
    identifiers are the first [o - j], the emitted ones the next, as many as
    [l] leaves room for. *)
Lemma emit_paging st limit offset l o slots documentIDs :
  num_eq limit (Finite l 0) = true ->
  num_eq offset (Finite o 0) = true ->
  forall c (hs : list RetrievedDoc),
    results c
    = (map Some hs ++ repeat None (slots - List.length hs))%list ->
    i c = Z.of_nat (List.length hs) ->
    (List.length hs <= Z.to_nat l)%nat ->
    hit_ids (results (emit st limit offset documentIDs c))
    = (map id hs
       ++ firstn (Z.to_nat l - List.length hs)
                 (skipn (Z.to_nat (o - j c)) documentIDs))%list.
Proof.
  intros Hl Ho.
  induction documentIDs as [| d rest IH]; intros c hs Hres Hi Hle.
  - simpl. rewrite Hres, hit_ids_holes, skipn_nil, firstn_nil, app_nil_r. reflexivity.
  - cbn [emit]. rewrite (num_lt_integer _ _ _ Ho), (num_ge_integer _ _ _ Hl).
    destruct (j c <? o) eqn:Hj.
    + apply Z.ltb_lt in Hj.
      rewrite (IH _ hs) by assumption. cbn [j].
      replace (Z.to_nat (o - j c)) with (S (Z.to_nat (o - (j c + 1))))
        by lia.
      reflexivity.
    + apply Z.ltb_ge in Hj.
      replace (Z.to_nat (o - j c)) with O by lia. cbn [skipn].
      destruct (l <=? i c) eqn:Hlim.
      * apply Z.leb_le in Hlim.
        replace (Z.to_nat l - List.length hs)%nat with O by lia.
        rewrite Hres, hit_ids_holes. cbn [firstn]. now rewrite app_nil_r.
      * apply Z.leb_gt in Hlim.
        assert (Hlt : (List.length hs < Z.to_nat l)%nat) by lia.
        rewrite (IH _ (hs ++ [mkRetrievedDoc d (map_get String.eqb d (docs st))])%list).
        -- cbn [j]. replace (Z.to_nat (o - j c)) with O by lia. cbn [skipn].
           rewrite map_app, length_app. cbn [map List.length id].
           rewrite <- app_assoc. cbn [app].
           replace (Z.to_nat l - List.length hs)%nat
             with (S (Z.to_nat l - (List.length hs + 1))) by lia.
           reflexivity.
        -- cbn [results]. rewrite Hres, Hi, Nat2Z.id.
           now rewrite array_set_next.
        -- cbn [i]. rewrite length_app. cbn [List.length]. lia.
        -- rewrite length_app. cbn [List.length]. lia.
Qed.

(** X13.  Paging.  For a term of one token searched in one property, the
    count is the number of candidates (the identifiers the text index
    returns, filtered by the where clause); and when the values of [limit]
    and [offset] are integers [l] and [o] (a negative one counts as 0), the
    hits are the candidates in order, without the first [o] and cut at [l]. *)
Theorem search_single_page st params language token index_ ns r l o :
  tokenize (VStr (term params)) (Some (search_language st language)) = Ok [token] ->
  getIndices st (properties params) = Ok [index_] ->
  getNonSearchableIndices (where_ params) (schema st) "" = Ok ns ->
  num_eq (search_limit params) (Finite l 0) = true ->
  num_eq (search_offset params) (Finite o 0) = true ->
  search st params language = Ok r ->
  count r
  = Z.of_nat (List.length
                (candidates st (search_exact params) (tolerance params)
                            (getDocumentIDsFromWhere st (fst ns) (snd ns))
                            token index_))
  /\ hit_ids (hits r)
     = firstn (Z.to_nat l)
              (skipn (Z.to_nat o)
                     (candidates st (search_exact params) (tolerance params)
                                 (getDocumentIDsFromWhere st (fst ns) (snd ns))
                                 token index_)).
Proof.
  intros Ht Hi Hw Hl Ho Hr. rewrite (search_run _ _ _ _ _ _ _ Ht Hi Hw Hr).
  cbn [hits count]. unfold search_cursor, search_tokens.
  cbn [fold_left search_indices documentAdded results totalResults i j].
  fold (candidates st (search_exact params) (tolerance params)
                   (getDocumentIDsFromWhere st (fst ns) (snd ns)) token index_).
  rewrite setSubtraction_nil.
  set (cands := candidates _ _ _ _ _ _).
  destruct cands as [| d ds] eqn:Hc.
  - cbn. split; [reflexivity |].
    rewrite skipn_nil, firstn_nil. apply (hit_ids_holes [] _).
  - cbn [List.length Nat.eqb]. rewrite <- Hc.
    rewrite (num_ge_integer _ _ _ Hl).
    destruct (l <=? 0) eqn:Hlim.
    + cbn [totalResults results]. split; [lia |].
      apply Z.leb_le in Hlim.
      replace (Z.to_nat l) with O by lia.
      cbn [firstn]. apply (hit_ids_holes [] _).
    + match goal with |- context [emit st ?lim ?off cands ?c1] =>
        destruct (emit_progress st lim off cands c1) as (H1 & _);
        pose proof (emit_paging st lim off l o
                      (Z.to_nat (ToLength (search_limit params))) cands Hl Ho c1 [])
          as Hp
      end.
      cbn [totalResults] in H1 |- *. rewrite H1.
      split; [subst cands; cbn [List.length]; lia |].
      rewrite Hp; cbn [results i j List.length map app]; try lia.
      * now rewrite Nat.sub_0_r, Z.sub_0_r.
      * now rewrite Nat.sub_0_r.
Qed.

Lemma search_indices_no_candidates st limit offset exact tolerance fromWhere token
      indices c :
  (forall index_, In index_ indices ->
                  candidates st exact tolerance fromWhere token index_ = []) ->
  search_indices st limit offset exact tolerance fromWhere token indices c = c.
Proof.
  induction indices as [| index_ rest IH]; intros H; [reflexivity |].
  cbn [search_indices].
  change (match setIntersection
                  (Some (getDocumentIDsFromSearch st index_ token exact tolerance))
                  fromWhere with
          | Some s => s
          | None => []
          end) with (candidates st exact tolerance fromWhere token index_).
  rewrite (H index_ (or_introl eq_refl)). cbn [setSubtraction filter List.length Nat.eqb].
  apply IH. intros ix Hix. apply H. now right.
Qed.

(** X14.  When no property is selected, or the where clause admits no
    document at all, a search that returns has count 0 and no hit. *)
Theorem search_nothing_admitted st params language tokens indices ns r :
  tokenize (VStr (term params)) (Some (search_language st language)) = Ok tokens ->
  getIndices st (properties params) = Ok indices ->
  getNonSearchableIndices (where_ params) (schema st) "" = Ok ns ->
  search st params language = Ok r ->
  indices = [] \/ getDocumentIDsFromWhere st (fst ns) (snd ns) = Some [] ->
  count r = 0 /\ hit_ids (hits r) = [].
Proof.
  intros Ht Hi Hw Hr Hnone. rewrite (search_run _ _ _ _ _ _ _ Ht Hi Hw Hr).
  cbn [hits count]. unfold search_cursor, search_tokens.
  set (c0 := mkCursor [] (repeat None (Z.to_nat (ToLength (search_limit params)))) 0 0 0).
  assert (Hfold : forall toks c,
             fold_left (fun c token =>
                          search_indices st (search_limit params) (search_offset params)
                            (search_exact params) (tolerance params)
                            (getDocumentIDsFromWhere st (fst ns) (snd ns))
                            token indices c) toks c = c).
  { induction toks as [| t toks IH]; intros c; simpl; [reflexivity |].
    rewrite search_indices_no_candidates; [apply IH |].
    intros ix Hix. destruct Hnone as [-> | ->]; [destruct Hix |].
    unfold candidates. simpl.
    induction (getDocumentIDsFromSearch _ _ _ _ _); simpl; auto. }
  rewrite Hfold. split; [reflexivity | apply (hit_ids_holes [] _)].
Qed.
End SearchPaging.

(** ** Further runs in the reference environment *)

Lemma reference_removal_reports_no_failure :
  forall t tok id, fst (Trie_removeDocByWord (Env := Reference.env) t tok id) = false.
Proof.
  intros t tok id.
  change (fst (Reference.Trie_removeDocByWord t tok id) = false).
  unfold Reference.Trie_removeDocByWord.
  destruct (map_get String.eqb tok t); reflexivity.
Qed.

Lemma insert_stores_document_witness :
  "A" = "A"
  /\ docs Shelf.oneBook
     = map_set String.eqb "A" Sample.lyraBook (docs (Sample.engine Sample.bookSchema))
  /\ map_get String.eqb "A" (docs Shelf.oneBook) = Some Sample.lyraBook
  /\ same_keys (Sample.engine Sample.bookSchema) Shelf.oneBook.
Proof.
  apply (insert_stores_document (E := Reference.env) "A" Sample.lyraBook None
           (Sample.engine Sample.bookSchema) "A" Shelf.oneBook).
  vm_compute. reflexivity.
Defined.

Lemma insert_null_field_stored_witness :
  exists e st',
    insert "N" Shelf.nullTitle None (Sample.engine Sample.bookSchema) = (Err e, st')
    /\ (e = TypeError
        \/ exists v, tokenize (Env := Reference.env) v
                               (Some (search_language (Sample.engine Sample.bookSchema)
                                                      None)) = Err e)
    /\ map_get String.eqb "N" (docs st') = Some Shelf.nullTitle
    /\ same_keys (Sample.engine Sample.bookSchema) st'.
Proof.
  apply (insert_null_field_stored (E := Reference.env) "N"
           [("title", VNull)] "title" None (Sample.engine Sample.bookSchema)).
  - vm_compute. reflexivity.
  - vm_compute. reflexivity.
  - left. reflexivity.
Defined.

Lemma delete_effects_witness :
  same_keys Sample.books (snd (delete "A" Sample.books))
  /\ (forall b, fst (delete "A" Sample.books) = Ok b ->
                b = true
                /\ docs (snd (delete "A" Sample.books))
                   = map_delete String.eqb "A" (docs Sample.books))
  /\ (forall e, fst (delete "A" Sample.books) = Err e ->
                docs (snd (delete "A" Sample.books)) = docs Sample.books)
  /\ (map_has String.eqb "A" (docs Sample.books) = false ->
      fst (delete "A" Sample.books) = Err DOC_ID_DOES_NOT_EXISTS
      /\ snd (delete "A" Sample.books) = Sample.books).
Proof.
  apply (delete_effects (E := Reference.env) "A" Sample.books).
  vm_compute. reflexivity.
Defined.

Lemma delete_flat_document_witness :
  exists st',
    delete "A" Shelf.titles = (Ok true, st')
    /\ map_get String.eqb "A" (docs st') = None
    /\ (forall other, other <> "A" ->
                      map_get String.eqb other (docs st')
                      = map_get String.eqb other (docs Shelf.titles)).
Proof.
  apply (delete_flat_document (E := Reference.env) "A"
           [("title", VStr "The Lyra Book")] Shelf.titles).
  - exact reference_removal_reports_no_failure.
  - vm_compute. reflexivity.
  - intros k [<- | []]. split; [vm_compute; auto |].
    eexists. vm_compute. reflexivity.
  - vm_compute. repeat constructor. intros [].
Defined.

Lemma checkInsertDocSchema_flat_witness :
  checkInsertDocSchema (Sample.engine Sample.bookSchema) Sample.lyraBook = true
  <-> forall k v,
      In (k, v) [("title", VStr "The Lyra Book"); ("year", VNum (Finite 2022 0));
                 ("inStock", VBool true)] ->
      get (schema (Sample.engine Sample.bookSchema)) k = VStr (typeof v).
Proof.
  apply (checkInsertDocSchema_flat (E := Reference.env)
           (Sample.engine Sample.bookSchema)
           [("title", VStr "The Lyra Book"); ("year", VNum (Finite 2022 0));
            ("inStock", VBool true)]).
  intros k v [H | [H | [H | []]]]; injection H as <- <-; discriminate.
Defined.

Lemma inserted_boolean_is_admitted_witness :
  getNonSearchableIndices (VObj [("inStock", VBool true)]) (schema Shelf.oneBook) ""
  = Ok (["inStock" ++ "_" ++ bool_to_string true], [])
  /\ exists F,
      getDocumentIDsFromWhere Shelf.oneBook ["inStock" ++ "_" ++ bool_to_string true] []
      = Some F
      /\ In "A" F.
Proof.
  apply (inserted_boolean_is_admitted (E := Reference.env) "A"
           [("title", VStr "The Lyra Book"); ("year", VNum (Finite 2022 0));
            ("inStock", VBool true)]
           "inStock" true None (Sample.engine Sample.bookSchema) "A" Shelf.oneBook).
  - vm_compute. reflexivity.
  - right. right. left. reflexivity.
  - vm_compute. auto.
Defined.

Lemma inserted_number_is_admitted_witness :
  getNonSearchableIndices (VObj [("year", VObj [("=", VNum (Finite 2022 0))])])
                          (schema Shelf.oneBook) ""
  = Ok ([], ["year" ++ "." ++ "=" ++ "." ++ number_to_string (Finite 2022 0)])
  /\ exists F,
      getDocumentIDsFromWhere Shelf.oneBook []
        ["year" ++ "." ++ "=" ++ "." ++ number_to_string (Finite 2022 0)]
      = Some F
      /\ In "A" F.
Proof.
  apply (inserted_number_is_admitted (E := Reference.env) "A"
           [("title", VStr "The Lyra Book"); ("year", VNum (Finite 2022 0));
            ("inStock", VBool true)]
           "year" (Finite 2022 0) None (Sample.engine Sample.bookSchema) "A"
           Shelf.oneBook).
  - vm_compute. reflexivity.
  - right. left. reflexivity.
  - vm_compute. auto.
  - vm_compute. reflexivity.
  - vm_compute. reflexivity.
  - vm_compute. reflexivity.
Defined.

Lemma search_hits_sound_witness :
  fullDoc Shelf.lyraBookHit
  = map_get String.eqb (id Shelf.lyraBookHit) (docs Sample.books)
  /\ (exists token index_,
         In token ["lyra"] /\ In index_ ["title"]
         /\ In (id Shelf.lyraBookHit)
               (getDocumentIDsFromSearch Sample.books index_ token
                  (search_exact Shelf.lyraInStock) (tolerance Shelf.lyraInStock)))
  /\ (forall F, getDocumentIDsFromWhere Sample.books
                  (fst (["inStock_true"], @nil string))
                  (snd (["inStock_true"], @nil string))
                = Some F ->
                In (id Shelf.lyraBookHit) F).
Proof.
  apply (search_hits_sound (E := Reference.env) Sample.books Shelf.lyraInStock None
           ["lyra"] ["title"] (["inStock_true"], []) Shelf.inStockHits);
    try (vm_compute; reflexivity).
  vm_compute. left. reflexivity.
Defined.

Lemma search_count_covers_hits_witness :
  Z.of_nat (List.length (hit_ids (hits Shelf.secondPageHits)))
  <= count Shelf.secondPageHits.
Proof.
  apply (search_count_covers_hits (E := Reference.env) Sample.books Shelf.secondPage
           None Shelf.secondPageHits).
  vm_compute. reflexivity.
Defined.

Lemma search_single_page_witness :
  count Shelf.secondPageHits
  = Z.of_nat (List.length
                (candidates Sample.books (search_exact Shelf.secondPage)
                            (tolerance Shelf.secondPage)
                            (getDocumentIDsFromWhere Sample.books
                               (fst (@nil string, @nil string))
                               (snd (@nil string, @nil string)))
                            "lyra" "title"))
  /\ hit_ids (hits Shelf.secondPageHits)
     = firstn (Z.to_nat 1)
              (skipn (Z.to_nat 1)
                     (candidates Sample.books (search_exact Shelf.secondPage)
                                 (tolerance Shelf.secondPage)
                                 (getDocumentIDsFromWhere Sample.books
                                    (fst (@nil string, @nil string))
                               (snd (@nil string, @nil string)))
                                 "lyra" "title")).
Proof.
  apply (search_single_page (E := Reference.env) Sample.books Shelf.secondPage None
           "lyra" "title" ([], []) Shelf.secondPageHits 1 1);
    vm_compute; reflexivity.
Defined.

Lemma search_nothing_admitted_witness :
  count Shelf.from1990Hits = 0 /\ hit_ids (hits Shelf.from1990Hits) = [].
Proof.
  apply (search_nothing_admitted (E := Reference.env) Sample.books Shelf.from1990 None
           ["lyra"] ["title"] ([], ["year.=.1990"]) Shelf.from1990Hits);
    try (vm_compute; reflexivity).
  right. vm_compute. reflexivity.
Defined.

(** ** Documents that cannot be deleted, and the life of an engine *)

Lemma map_delete_keys_NoDup {V} k (m : list (string * V)) :
  NoDup (map fst m) -> NoDup (map fst (map_delete String.eqb k m)).
Proof.
  induction m as [| [k' v] m IH]; simpl; intros H; [constructor |].
  inversion H as [| ? ? Hk Hm]; subst.
  destruct (String.eqb k k'); simpl; [exact Hm |].
  constructor; [| now apply IH].
  intros Hin. apply Hk. clear - Hin.
  induction m as [| [k2 v2] m IH]; simpl in *; [exact Hin |].
  destruct (String.eqb k k2); simpl in *; [now right |].
  destruct Hin as [H | H]; [now left | right; now apply IH].
Qed.

Section EngineLife.
Context {E : Env}.

Lemma for_of_fails {A} (P : Lyra -> Prop) (l : list A) (body : A -> M unit) x :
  In x l ->
  (forall st, P st -> exists e st', body x st = (Err e, st')) ->
  (forall y st st', P st -> body y st = (Ok tt, st') -> P st') ->
  forall st, P st -> exists e st', for_of l body st = (Err e, st').
Proof.
  intros Hin Hx Hkeep. induction l as [| y l IH]; intros st HP; [destruct Hin |].
  simpl. unfold bind.
  destruct (body y st) as [[[] | e] st1] eqn:Hy; [| eauto].
  destruct Hin as [-> | Hin].
  - destruct (Hx st HP) as (e & st' & He). congruence.
  - apply (IH Hin). eapply Hkeep; eassumption.
Qed.

(** X15.  A stored document with a top-level key that has no text index (a
    number, a boolean or a nested field) cannot be deleted as soon as the
    tokenizer returns a token, or throws, for the value of that key:
    [delete] throws, and the document stays in the document table. *)
Theorem delete_fails_without_trie docID fields key st :
  map_get String.eqb docID (docs st) = Some (VObj fields) ->
  In key (map fst fields) ->
  ~ In key (map fst (index st)) ->
  tokenize (get (VObj fields) key) None <> Ok [] ->
  exists e st',
    delete docID st = (Err e, st')
    /\ map_get String.eqb docID (docs st') = Some (VObj fields)
    /\ same_keys st st'.
Proof.
  intros Hdoc Hkey Hnone Htok.
  set (P := fun st1 : Lyra => same_tables st st1).
  assert (Hloop : exists e st1,
             for_of (for_in_keys (VObj fields)) (fun key =>
               bind (lift (tokenize (get (VObj fields) key) None)) (fun tokens =>
               for_of tokens (remove_token key docID))) st = (Err e, st1)).
  { apply (for_of_fails P _ _ key Hkey); [| | apply same_tables_refl].
    - intros st1 HP1. unfold bind, lift.
      destruct (tokenize (get (VObj fields) key) None) as [[| token tokens] |];
        [now destruct Htok | | eauto].
      simpl. unfold bind at 1. unfold remove_token at 1. unfold bind, this.
      assert (Hn : map_get String.eqb key (index st1) = None).
      { apply map_get_not_In. destruct HP1 as [(_ & _ & Hix & _) _]. now rewrite Hix. }
      rewrite Hn. unfold throw. eauto.
    - intros y st1 st2 HP1 Hy.
      eapply same_tables_trans; [exact HP1 |].
      assert (Hbody : establishes same_tables
                        (bind (lift (tokenize (get (VObj fields) y) None))
                              (fun tokens => for_of tokens (remove_token y docID)))).
      { apply (establishes_bind same_tables same_tables_trans).
        - apply (establishes_lift same_tables same_tables_refl).
        - intros tokens.
          apply (establishes_for_of same_tables same_tables_refl same_tables_trans).
          intros token. apply remove_token_same_tables. }
      specialize (Hbody st1). rewrite Hy in Hbody. exact Hbody. }
  destruct Hloop as (e & st1 & Hloop).
  pose proof (delete_loop_same_tables (VObj fields) docID st) as [Hk Hd].
  rewrite Hloop in Hk, Hd. simpl in Hk, Hd.
  exists e, st1. unfold delete. unfold bind at 1. unfold this.
  assert (Hhas : map_has String.eqb docID (docs st) = true)
    by (unfold map_has; now rewrite Hdoc).
  rewrite Hhas, Hdoc. cbn [negb]. unfold bind at 1. rewrite Hloop.
  split; [reflexivity |]. split; [now rewrite Hd | exact Hk].
Qed.

Lemma insert_keeps st nanoid doc language :
  same_keys st (snd (insert nanoid doc language st))
  /\ (NoDup (map fst (docs st)) ->
      NoDup (map fst (docs (snd (insert nanoid doc language st))))).
Proof.
  unfold insert, bind, this.
  destruct (includes SUPPORTED_LANGUAGES _); simpl;
    [| split; [apply same_keys_refl | auto]].
  destruct (checkInsertDocSchema st doc); simpl;
    [| split; [apply same_keys_refl | auto]].
  unfold queue_push.
  match goal with
  | |- context [_insert ?d ?n ?l st] =>
      destruct (_insert_effects d n l st) as [Hd Hk];
      destruct (_insert d n l st) as [[[] | e] st1]; simpl in *
  end.
  - split; [exact Hk |]. intros Hnd. rewrite Hd. now apply map_set_keys_NoDup.
  - split; [exact Hk |]. intros Hnd. rewrite Hd. now apply map_set_keys_NoDup.
Qed.

Lemma delete_keeps st docID :
  same_keys st (snd (delete docID st))
  /\ (NoDup (map fst (docs st)) -> NoDup (map fst (docs (snd (delete docID st))))).
Proof.
  remember (delete docID st) as out eqn:Hout. destruct out as [r st'].
  symmetry in Hout. cbn [snd]. revert Hout.
  unfold delete. unfold bind at 1. unfold this.
  destruct (map_has String.eqb docID (docs st)); cbn [negb].
  - unfold bind at 1.
    pose proof (delete_loop_same_tables
                  (match map_get String.eqb docID (docs st) with
                   | Some d => d
                   | None => VUndefined
                   end) docID st) as Hsame.
    destruct (for_of _ _ st) as [[[] | e] st1]; destruct Hsame as [Hk Hd];
      cbn [snd] in Hk, Hd.
    + unfold bind, modify, ret. intros H. injection H as _ <-.
      split; [exact Hk |]. cbn [docs set_docs]. rewrite Hd.
      apply map_delete_keys_NoDup.
    + intros H. injection H as _ <-. split; [exact Hk | now rewrite Hd].
  - unfold throw. intros H. injection H as _ <-.
    split; [apply same_keys_refl | auto].
Qed.

(** X16.  Throughout the life of an engine built for a schema, whatever
    documents are inserted and deleted and whether the calls return or throw:
    the schema is the one given, the default language is supported, the text
    index has exactly the flat paths of the string leaves of the schema, the
    numeric index those of the number leaves, the boolean index the keys
    [path_true] and [path_false] of the boolean leaves, and no key of an
    index or of the document table occurs twice. *)
Theorem reachable_invariant s st :
  reachable s st ->
  schema st = s
  /\ includes SUPPORTED_LANGUAGES (defaultLanguage st) = true
  /\ (forall p, In p (map fst (index st)) <-> In p (leaf_paths "string" s ""))
  /\ (forall p, In p (map fst (numericIndex st)) <-> In p (leaf_paths "number" s ""))
  /\ (forall p, In p (map fst (booleanIndex st))
                <-> In p (boolean_keys (leaf_paths "boolean" s "")))
  /\ NoDup (map fst (index st))
  /\ NoDup (map fst (numericIndex st))
  /\ NoDup (map fst (booleanIndex st))
  /\ NoDup (map fst (docs st)).
Proof.
  induction 1 as [dl st Hnew | st nanoid doc language Hr IH | st docID Hr IH].
  - unfold new_Lyra in Hnew.
    destruct (includes SUPPORTED_LANGUAGES _) eqn:Hl; simpl in Hnew; [| discriminate].
    match type of Hnew with
    | context [buildIndex s "" ?st0] =>
        pose proof (buildIndex_spec s "" st0) as Hspec;
        pose proof (buildIndex_same_settings s "" st0) as (H1 & H2 & H3);
        destruct (buildIndex s "" st0) as [[[] | e] st1]; [| discriminate]
    end.
    injection Hnew as <-. simpl in H1, H2, H3.
    destruct Hspec as (A1 & A2 & A3 & A4 & A5 & A6 & _). simpl in *.
    rewrite H1, H2, H3.
    split; [reflexivity |]. split; [exact Hl |].
    split; [intros p; rewrite (A1 p); simpl; tauto |].
    split; [intros p; rewrite (A2 p); simpl; tauto |].
    split; [intros p; rewrite (A3 p); simpl; tauto |].
    split; [apply A4; constructor |]. split; [apply A5; constructor |].
    split; [apply A6; constructor | constructor].
  - destruct (insert_keeps st nanoid doc language) as [(K1 & K2 & K3 & K4 & K5) Hd].
    destruct IH as (I1 & I2 & I3 & I4 & I5 & I6 & I7 & I8 & I9).
    rewrite K1, K2, K3, K4, K5. repeat split; auto; try apply I3; try apply I4;
      try apply I5.
  - destruct (delete_keeps st docID) as [(K1 & K2 & K3 & K4 & K5) Hd].
    destruct IH as (I1 & I2 & I3 & I4 & I5 & I6 & I7 & I8 & I9).
    rewrite K1, K2, K3, K4, K5. repeat split; auto; try apply I3; try apply I4;
      try apply I5.
Qed.
End EngineLife.

Lemma reference_tokenizer_rejects_numbers n l :
  tokenize (Env := Reference.env) (VNum n) l <> Ok [].
Proof.
  change (Reference.tokenize (VNum n) l <> Ok []). unfold Reference.tokenize.
  destruct (negb (includes Reference.SUPPORTED_LANGUAGES _)); discriminate.
Qed.

Lemma delete_fails_without_trie_witness :
  exists e st',
    delete "A" Sample.books = (Err e, st')
    /\ map_get String.eqb "A" (docs st') = Some Sample.lyraBook
    /\ same_keys Sample.books st'.
Proof.
  apply (delete_fails_without_trie (E := Reference.env) "A"
           [("title", VStr "The Lyra Book"); ("year", VNum (Finite 2022 0));
            ("inStock", VBool true)] "year" Sample.books).
  - vm_compute. reflexivity.
  - vm_compute. auto.
  - vm_compute. intros [H | []]. discriminate.
  - apply reference_tokenizer_rejects_numbers.
Defined.

Lemma reachable_invariant_witness :
  schema Sample.books = Sample.bookSchema
  /\ includes (SUPPORTED_LANGUAGES (Env := Reference.env))
              (defaultLanguage Sample.books) = true
  /\ (forall p, In p (map fst (index Sample.books))
                <-> In p (leaf_paths "string" Sample.bookSchema ""))
  /\ (forall p, In p (map fst (numericIndex Sample.books))
                <-> In p (leaf_paths "number" Sample.bookSchema ""))
  /\ (forall p, In p (map fst (booleanIndex Sample.books))
                <-> In p (boolean_keys (leaf_paths "boolean" Sample.bookSchema "")))
  /\ NoDup (map fst (index Sample.books))
  /\ NoDup (map fst (numericIndex Sample.books))
  /\ NoDup (map fst (booleanIndex Sample.books))
  /\ NoDup (map fst (docs Sample.books)).
Proof.
  apply (reachable_invariant (E := Reference.env) Sample.bookSchema Sample.books).
  unfold Sample.books, Sample.run.
  apply reach_insert, reach_insert, (reach_new _ None).
  vm_compute. reflexivity.
Defined.

(** ** A numeric clause, from the where object to the filter set *)

Section NumericClause.
Context {E : Env}.

(** X17.  For a number field [key] of the schema, an allowed operator and a
    target whose printed form has no dot and reads back as the target, the
    where clause [{ key: { op: v } }] is accepted, and its filter set holds
    exactly the documents filed in the numeric index of [key] under a value
    that the operator's predicate accepts against [v]. *)
Theorem numeric_clause_sound (st : Lyra) fields key op v current :
  schema st = VObj fields ->
  get (VObj fields) key = VStr "number" ->
  includes allowedNumericComparison op = true ->
  no_dot (number_to_string v) = true ->
  Number (number_to_string v) = v ->
  map_get String.eqb key (numericIndex st) = Some current ->
  getNonSearchableIndices (VObj [(key, VObj [(op, VNum v)])]) (schema st) ""
  = Ok ([], [key ++ "." ++ op ++ "." ++ number_to_string v])
  /\ exists F,
      getDocumentIDsFromWhere st [] [key ++ "." ++ op ++ "." ++ number_to_string v]
      = Some F
      /\ forall id,
          In id F
          <-> exists x ids,
              In x (map fst current)
              /\ createPredicateForNumericComparison (Some op) v x = true
              /\ map_get same_value_zero x current = Some ids
              /\ In id ids.
Proof.
  intros Hs Hsk Hop Hdot Hread Hcur. split.
  - rewrite Hs, getNonSearchableIndices_cons.
    unfold where_property, get_checked. rewrite Hsk.
    cbn [is_str String.eqb Ascii.eqb Bool.eqb rbind].
    unfold handleNumeric. cbn [Object_keys map fst rbind List.length Nat.ltb Nat.leb].
    rewrite Hop. cbn [negb get assoc]. rewrite String.eqb_refl. reflexivity.
  - eexists. split; [reflexivity |]. cbn [fold_left].
    now apply numeric_filter_sound_without_dot.
Qed.
End NumericClause.

Lemma numeric_clause_sound_witness :
  getNonSearchableIndices (VObj [("year", VObj [("<", VNum (Finite 2020 0))])])
                          (schema Sample.books) ""
  = Ok ([], ["year" ++ "." ++ "<" ++ "." ++ number_to_string (Finite 2020 0)])
  /\ exists F,
      getDocumentIDsFromWhere Sample.books []
        ["year" ++ "." ++ "<" ++ "." ++ number_to_string (Finite 2020 0)]
      = Some F
      /\ forall id,
          In id F
          <-> exists x ids,
              In x (map fst [(Finite 2022 0, ["A"]); (Finite 2019 0, ["B"])])
              /\ createPredicateForNumericComparison (Some "<") (Finite 2020 0) x = true
              /\ map_get same_value_zero x
                         [(Finite 2022 0, ["A"]); (Finite 2019 0, ["B"])] = Some ids
              /\ In id ids.
Proof.
  apply (numeric_clause_sound (E := Reference.env) Sample.books
           [("title", VStr "string"); ("year", VStr "number");
            ("inStock", VStr "boolean")]
           "year" "<" (Finite 2020 0)
           [(Finite 2022 0, ["A"]); (Finite 2019 0, ["B"])]);
    vm_compute; reflexivity.
Defined.
